(** * package-manager-detector: the detection resolver

    A shallow embedding of [detect], [detectSync], [processUserAgent],
    [lookup], [parsePackageJson], [handlePackageManager] and [fileExists]
    (second document of src/src/types.ts) together with the option and result
    types of the first document, and the properties of the specification
    stated over them.

    Conventions of the embedding.
    - A JavaScript string is a [string]: a sequence of code units, here the
      8-bit ones.
    - A resolved absolute POSIX path is the list of its segments, the root
      being the empty list.
    - Filesystem calls are nodes of an inductive program tree [Prog]; running
      a tree against a filesystem state gives the returned value and the
      ordered log of the calls made.
    - The tables [AGENTS] and [LOCKS] come from ./constants, which is not part
      of the sources: the functions take them as parameters. *)

From Stdlib Require Import List String Ascii ZArith Bool Lia Arith.
Import ListNotations.
Open Scope string_scope.
Open Scope list_scope.

Set Implicit Arguments.
Set Warnings "-register-all".

(* ================================================================= *)
(** ** Strings *)

Module Str.

(** [s.split(sep)] for a one-character separator: never empty. *)
Fixpoint split (sep : ascii) (s : string) : list string :=
  match s with
  | EmptyString => [EmptyString]
  | String c rest =>
      if Ascii.eqb c sep then EmptyString :: split sep rest
      else match split sep rest with
           | [] => [String c EmptyString]
           | part :: parts => String c part :: parts
           end
  end.

(** [s.replace(/^\^/, '')]. *)
Definition strip_caret (s : string) : string :=
  match s with
  | String "^"%char rest => rest
  | _ => s
  end.

(** JavaScript truthiness of a string. *)
Definition truthy (s : string) : bool :=
  match s with
  | EmptyString => false
  | String _ _ => true
  end.

Definition contains (c : ascii) (s : string) : bool :=
  existsb (Ascii.eqb c) (list_ascii_of_string s).

End Str.

(* ================================================================= *)
(** ** [Number.parseInt] with no radix argument

    The result is an integer or NaN; NaN is [None].  The source only compares
    the result with 1 and with 7, and rounding to a double is monotone and
    leaves both constants fixed, so the exact integer decides the same
    comparisons as the double does. *)

Module Num.

(** StrWhiteSpaceChar, among the 8-bit code units. *)
Definition is_white (c : ascii) : bool :=
  let n := nat_of_ascii c in
  ((9 <=? n)%nat && (n <=? 13)%nat) || (n =? 32)%nat || (n =? 160)%nat.

Fixpoint trim_start (s : string) : string :=
  match s with
  | String c rest => if is_white c then trim_start rest else s
  | EmptyString => s
  end.

(** The value of [c] as a digit of the radix, if it is one. *)
Definition digit (radix : Z) (c : ascii) : option Z :=
  let n := Z.of_nat (nat_of_ascii c) in
  let v :=
    if ((48 <=? n) && (n <=? 57))%Z then Some (n - 48)%Z
    else if ((97 <=? n) && (n <=? 122))%Z then Some (n - 87)%Z
    else if ((65 <=? n) && (n <=? 90))%Z then Some (n - 55)%Z
    else None in
  match v with
  | Some d => if (d <? radix)%Z then Some d else None
  | None => None
  end.

(** The longest prefix of digits, read left to right; [seen] says whether
    a digit has been read yet. *)
Fixpoint digits (radix : Z) (s : string) (seen : bool) (acc : Z) : option Z :=
  match s with
  | String c rest =>
      match digit radix c with
      | Some d => digits radix rest true (acc * radix + d)%Z
      | None => if seen then Some acc else None
      end
  | EmptyString => if seen then Some acc else None
  end.

Definition parseInt_string (input : string) : option Z :=
  let s := trim_start input in
  let '(sign, s) :=
    match s with
    | String "-"%char rest => ((-1)%Z, rest)
    | String "+"%char rest => (1%Z, rest)
    | _ => (1%Z, s)
    end in
  let '(radix, s) :=
    match s with
    | String "0"%char (String "x"%char rest) => (16%Z, rest)
    | String "0"%char (String "X"%char rest) => (16%Z, rest)
    | _ => (10%Z, s)
    end in
  match digits radix s false 0%Z with
  | Some n => Some (sign * n)%Z
  | None => None
  end.

(** [Number.parseInt(v)]: the argument goes through ToString first, so
    [undefined] is read as the text "undefined". *)
Definition parseInt (v : option string) : option Z :=
  parseInt_string (match v with Some s => s | None => "undefined" end).

(** [x > n] and [x < n]; a comparison with NaN is false. *)
Definition gt (x : option Z) (n : Z) : bool :=
  match x with Some v => (n <? v)%Z | None => false end.

Definition lt (x : option Z) (n : Z) : bool :=
  match x with Some v => (v <? n)%Z | None => false end.

End Num.

(* ================================================================= *)
(** ** Results and options (src/src/types.ts) *)

(** An optional property of an object: missing, present with the value
    [undefined], or present with a string. *)
Inductive Optional : Type :=
| Absent
| Undefined
| Present (s : string).

(** [DetectResult].  [AgentName] and [Agent] are unions of string literals;
    at run time the fields hold whatever string the parser produced. *)
Record DetectResult : Type := mkResult {
  name : string;
  agent : string;
  version : Optional
}.

Inductive DetectStrategy : Type :=
| lockfile
| packageManager_field
| devEngines_field
| install_metadata.

Inductive StopDir : Type :=
| StopPath (dir : string)
| StopPredicate (p : string -> bool).

(** The three ways [detect] tells the values of [options.npm_config_user_agent]
    apart: falsy, exactly [true], any other truthy value. *)
Inductive UserAgentOption : Type :=
| UA_falsy
| UA_true
| UA_truthy.

(** [onUnknown]: a [null] or [undefined] return is [None]. *)
Definition OnUnknown : Type := option (string -> option DetectResult).

Record DetectOptions : Type := mkOptions {
  cwd : option string;
  strategies : option (list DetectStrategy);
  onUnknown : OnUnknown;
  stopDir : option StopDir;
  npm_config_user_agent : UserAgentOption
}.

(** [detect()] called with no argument. *)
Definition default_options : DetectOptions :=
  mkOptions None None None None UA_falsy.

(* ================================================================= *)
(** ** The specifier parser: [processUserAgent] *)

Section Parser.

(** The known-agent table of ./constants. *)
Variable AGENTS : list string.

Definition includes (xs : list string) (x : string) : bool :=
  existsb (String.eqb x) xs.

(** [onUnknown?.(pm) ?? null]. *)
Definition call_onUnknown (cb : OnUnknown) (pm : string) : option DetectResult :=
  match cb with
  | Some f => f pm
  | None => None
  end.

(** [const [name, ver] = pm.replace(/^\^/, '').split('@')]. *)
Definition specifier_parts (pm : string) : string * option string :=
  match Str.split "@"%char (Str.strip_caret pm) with
  | [] => (EmptyString, None)
  | [n] => (n, None)
  | n :: v :: _ => (n, Some v)
  end.

Definition optional_of (v : option string) : Optional :=
  match v with
  | Some s => Present s
  | None => Undefined
  end.

Definition processUserAgent (pm : string) (cb : OnUnknown) : option DetectResult :=
  if negb (Str.truthy pm) then None
  else
    let '(name, ver) := specifier_parts pm in
    if (name =? "yarn") && Num.gt (Num.parseInt ver) 1 then
      Some (mkResult name "yarn@berry" (Present "berry"))
    else if (name =? "pnpm") && Num.lt (Num.parseInt ver) 7 then
      Some (mkResult name "pnpm@6" (optional_of ver))
    else if includes AGENTS name then
      Some (mkResult name name (optional_of ver))
    else call_onUnknown cb pm.

End Parser.

(* ================================================================= *)
(** ** Paths ([node:path], POSIX flavour) *)

Definition path : Type := list string.

Module Path.

Definition root : path := [].

Definition eqb (p q : path) : bool :=
  if list_eq_dec string_dec p q then true else false.

(** One step of normalisation: empty and "." segments vanish, ".." climbs
    (and stays at the root), any other segment descends. *)
Definition step (acc : path) (seg : string) : path :=
  if (seg =? "") || (seg =? ".") then acc
  else if seg =? ".." then removelast acc
  else acc ++ [seg].

Definition onto (base : path) (s : string) : path :=
  fold_left step (Str.split "/"%char s) base.

Definition is_absolute (s : string) : bool :=
  match s with
  | String "/"%char _ => true
  | _ => false
  end.

(** [path.resolve(s)], the process working directory being [pcwd]. *)
Definition resolve (pcwd : path) (s : string) : path :=
  if is_absolute s then onto root s else onto pcwd s.

(** [path.join(directory, s)] for a resolved [directory]. *)
Definition join (directory : path) (s : string) : path := onto directory s.

(** [path.dirname]; the root is its own parent. *)
Definition dirname (p : path) : path := removelast p.

(** A segment that names an entry of a directory. *)
Definition plain (s : string) : bool :=
  negb (Str.contains "/"%char s)
  && negb (s =? "") && negb (s =? ".") && negb (s =? "..").

End Path.

(* ================================================================= *)
(** ** Filesystem state, JSON values *)

Inductive json : Type :=
| JNull
| JBool (b : bool)
| JNumber (literal : string)
| JString (s : string)
| JArray (items : list json)
| JObject (fields : list (string * json)).

(** What a path leads to.  The content of a file is what
    [JSON.parse(fs.readFileSync(p, 'utf8'))] evaluates to, [None] when the
    read or the parse throws. *)
Inductive Node : Type :=
| File (content : option json)
| Directory.

(** A filesystem state: [None] where [stat] throws. *)
Definition FS : Type := path -> option Node.

Inductive Stats : Type :=
| StatsFile
| StatsDirectory.

Definition isFile (st : Stats) : bool :=
  match st with
  | StatsFile => true
  | StatsDirectory => false
  end.

Definition fs_stat (fs : FS) (p : path) : option Stats :=
  match fs p with
  | Some (File _) => Some StatsFile
  | Some Directory => Some StatsDirectory
  | None => None
  end.

Definition fs_read_json (fs : FS) (p : path) : option json :=
  match fs p with
  | Some (File content) => content
  | _ => None
  end.

(** A filesystem given by its entries, each under the text of its path. *)
Fixpoint fs_of (entries : list (string * Node)) : FS :=
  fun p =>
    match entries with
    | [] => None
    | (q, n) :: rest =>
        if Path.eqb (Path.resolve Path.root q) p then Some n else fs_of rest p
    end.

(** Reading a property off a parsed value: [null] throws, an object gives
    its own property (the last binding of a repeated key), anything else
    gives [undefined]. *)
Inductive Access : Type :=
| Throws
| Value (v : option json).

Fixpoint own_property (fields : list (string * json)) (key : string) : option json :=
  match fields with
  | [] => None
  | (k, v) :: rest =>
      match own_property rest key with
      | Some later => Some later
      | None => if k =? key then Some v else None
      end
  end.

Definition get_property (v : json) (key : string) : Access :=
  match v with
  | JNull => Throws
  | JObject fields => Value (own_property fields key)
  | _ => Value None
  end.

(* ================================================================= *)
(** ** Programs that call the filesystem *)

Inductive Prog (A : Type) : Type :=
| Ret (a : A)
| StatAsync (p : path) (k : option Stats -> Prog A)
| StatSync (p : path) (k : option Stats -> Prog A)
| ReadJSON (p : path) (k : option json -> Prog A).

Arguments Ret {A} a.
Arguments StatAsync {A} p k.
Arguments StatSync {A} p k.
Arguments ReadJSON {A} p k.

Fixpoint bind {A B : Type} (m : Prog A) (f : A -> Prog B) : Prog B :=
  match m with
  | Ret a => f a
  | StatAsync p k => StatAsync p (fun r => bind (k r) f)
  | StatSync p k => StatSync p (fun r => bind (k r) f)
  | ReadJSON p k => ReadJSON p (fun r => bind (k r) f)
  end.

Notation "x <- m ;; k" := (bind m (fun x => k))
  (at level 61, m at next level, right associativity).

(** One filesystem call, as it appears in the log of a run. *)
Inductive Event : Type :=
| EvStat (suspends : bool) (p : path)
| EvRead (p : path).

Definition event_path (e : Event) : path :=
  match e with
  | EvStat _ p => p
  | EvRead p => p
  end.

(** Running a program against a filesystem state. *)
Fixpoint run {A : Type} (fs : FS) (m : Prog A) : A * list Event :=
  match m with
  | Ret a => (a, [])
  | StatAsync p k =>
      let '(a, log) := run fs (k (fs_stat fs p)) in (a, EvStat true p :: log)
  | StatSync p k =>
      let '(a, log) := run fs (k (fs_stat fs p)) in (a, EvStat false p :: log)
  | ReadJSON p k =>
      let '(a, log) := run fs (k (fs_read_json fs p)) in (a, EvRead p :: log)
  end.

Definition result_of {A : Type} (fs : FS) (m : Prog A) : A := fst (run fs m).
Definition log_of {A : Type} (fs : FS) (m : Prog A) : list Event := snd (run fs m).

(* ================================================================= *)
(** ** The resolver *)

(** [process]: the environment variable and the working directory. *)
Record Process : Type := mkProcess {
  env_npm_config_user_agent : option string;
  process_cwd : path
}.

Section Detect.

Variable AGENTS : list string.

(** The lockfile table of ./constants: its entries [lock: name] in the
    order of the object literal, so that [Object.keys(LOCKS)] is the list of
    first components and [LOCKS[lock]] the second component of the entry. *)
Variable LOCKS : list (string * string).

(** The loop of [lookup]: [fuel] bounds the number of iterations. *)
Fixpoint lookup_loop (fuel : nat) (directory : path) : list path :=
  match fuel with
  | O => []
  | S fuel' =>
      if negb (Path.eqb directory Path.root)
      then directory :: lookup_loop fuel' (Path.dirname directory)
      else []
  end.

(** [lookup(cwd)], the generator's whole sequence. *)
Definition lookup (proc : Process) (cwd : option string) : list path :=
  let directory :=
    match cwd with
    | Some c => Path.resolve (process_cwd proc) c
    | None => process_cwd proc
    end in
  lookup_loop (S (List.length directory)) directory.

Definition fileExists (filePath : path) : Prog bool :=
  StatAsync filePath (fun st =>
    match st with
    | Some stats => if isFile stats then Ret true else Ret false
    | None => Ret false
    end).

Definition fileExistsSync (filePath : path) : Prog bool :=
  StatSync filePath (fun st =>
    match st with
    | Some stats => if isFile stats then Ret true else Ret false
    | None => Ret false
    end).

Definition handlePackageManager (filepath : path) (cb : OnUnknown)
  : Prog (option DetectResult) :=
  ReadJSON filepath (fun parsed =>
    match parsed with
    | Some pkg =>
        match get_property pkg "packageManager" with
        | Value (Some (JString pm)) => Ret (processUserAgent AGENTS pm cb)
        | _ => Ret None
        end
    | None => Ret None
    end).

(** A joined path is never the empty string, so [!filepath] is false. *)
Definition parsePackageJson (filepath : path) (cb : OnUnknown)
  : Prog (option DetectResult) :=
  found <- fileExists filepath ;;
  if negb found then Ret None else handlePackageManager filepath cb.

Definition parsePackageJsonSync (filepath : path) (cb : OnUnknown)
  : Prog (option DetectResult) :=
  found <- fileExistsSync filepath ;;
  if negb found then Ret None else handlePackageManager filepath cb.

(** The loop over the lockfile table inside [detect]: [Some r] when the
    loop returns [r] from [detect], [None] when it runs to its end. *)
Fixpoint detect_locks (directory : path) (cb : OnUnknown)
    (locks : list (string * string)) : Prog (option DetectResult) :=
  match locks with
  | [] => Ret None
  | (lock, name) :: locks' =>
      found <- fileExists (Path.join directory lock) ;;
      if found then
        result <- parsePackageJson (Path.join directory "package.json") cb ;;
        match result with
        | Some r => Ret (Some r)
        | None => Ret (Some (mkResult name name Absent))
        end
      else detect_locks directory cb locks'
  end.

(** The body of the loop over the directories. *)
Definition detect_directory (directory : path) (cb : OnUnknown)
  : Prog (option DetectResult) :=
  returned <- detect_locks directory cb LOCKS ;;
  match returned with
  | Some r => Ret (Some r)
  | None => parsePackageJson (Path.join directory "package.json") cb
  end.

(** The loop over the directories, then [return null]. *)
Fixpoint detect_directories (directories : list path) (cb : OnUnknown)
  : Prog (option DetectResult) :=
  match directories with
  | [] => Ret None
  | directory :: rest =>
      result <- detect_directory directory cb ;;
      match result with
      | Some r => Ret (Some r)
      | None => detect_directories rest cb
      end
  end.

(** The first statement of [detect]: [Some r] when it returns [r],
    [None] when control reaches the loop. *)
Definition user_agent_step (proc : Process) (options : DetectOptions)
  : option (option DetectResult) :=
  match npm_config_user_agent options with
  | UA_falsy => None
  | UA_true =>
      match env_npm_config_user_agent proc with
      | Some userAgent =>
          if Str.truthy userAgent
          then Some (processUserAgent AGENTS userAgent (onUnknown options))
          else Some None
      | None => Some None
      end
  | UA_truthy =>
      match env_npm_config_user_agent proc with
      | Some userAgent =>
          if Str.truthy userAgent
          then match processUserAgent AGENTS userAgent None with
               | Some r => Some (Some r)
               | None => None
               end
          else None
      | None => None
      end
  end.

Definition detect (proc : Process) (options : DetectOptions)
  : Prog (option DetectResult) :=
  match user_agent_step proc options with
  | Some returned => Ret returned
  | None => detect_directories (lookup proc (cwd options)) (onUnknown options)
  end.

(** *** The blocking variant *)

Fixpoint detectSync_locks (directory : path) (cb : OnUnknown)
    (locks : list (string * string)) : Prog (option DetectResult) :=
  match locks with
  | [] => Ret None
  | (lock, name) :: locks' =>
      found <- fileExistsSync (Path.join directory lock) ;;
      if found then
        result <- parsePackageJsonSync (Path.join directory "package.json") cb ;;
        match result with
        | Some r => Ret (Some r)
        | None => Ret (Some (mkResult name name Absent))
        end
      else detectSync_locks directory cb locks'
  end.

Definition detectSync_directory (directory : path) (cb : OnUnknown)
  : Prog (option DetectResult) :=
  returned <- detectSync_locks directory cb LOCKS ;;
  match returned with
  | Some r => Ret (Some r)
  | None => parsePackageJsonSync (Path.join directory "package.json") cb
  end.

Fixpoint detectSync_directories (directories : list path) (cb : OnUnknown)
  : Prog (option DetectResult) :=
  match directories with
  | [] => Ret None
  | directory :: rest =>
      result <- detectSync_directory directory cb ;;
      match result with
      | Some r => Ret (Some r)
      | None => detectSync_directories rest cb
      end
  end.

Definition detectSync (proc : Process) (options : DetectOptions)
  : Prog (option DetectResult) :=
  match user_agent_step proc options with
  | Some returned => Ret returned
  | None => detectSync_directories (lookup proc (cwd options)) (onUnknown options)
  end.

End Detect.

(* ================================================================= *)
(** ** Tables and inputs of the worked instances *)

(** Modelled from the spec: the known-agent set [AGENTS] of ./constants, which
    is not among the sources, taken to be the agent identities that the
    specification and the [Agent] type enumerate. *)
Definition AGENTS_sample : list string :=
  ["npm"; "yarn"; "yarn@berry"; "pnpm"; "pnpm@6"; "bun"; "deno"].

(** Modelled from the spec: the Lockfile Table [LOCKS] of ./constants, which
    is not among the sources, a fixed mapping from lockfile filename to the
    agent name it implies.  The specification does not list the entries; the
    ones here are the package managers' customary lockfile names.  The
    theorems quantify over the table, the worked instances use this one. *)
Definition LOCKS_sample : list (string * string) :=
  [("bun.lock", "bun"); ("bun.lockb", "bun"); ("deno.lock", "deno");
   ("pnpm-lock.yaml", "pnpm"); ("pnpm-workspace.yaml", "pnpm");
   ("yarn.lock", "yarn"); ("package-lock.json", "npm");
   ("npm-shrinkwrap.json", "npm")].

(** A manifest whose only field is [packageManager]. *)
Definition manifest (pm : string) : Node :=
  File (Some (JObject [("packageManager", JString pm)])).

(** A process started in the root with no user agent in its environment. *)
Definition plain_process : Process := mkProcess None Path.root.

Definition options_at (dir : string) : DetectOptions :=
  mkOptions (Some dir) None None None UA_falsy.

(* ================================================================= *)
(** ** Notions the statements are written with *)

(** Decimal versions.

    A version that starts with a decimal digit and is not a hexadecimal
    literal is read by [Number.parseInt] as its leading run of decimal
    digits. *)

Definition leading_decimal (s : string) : option Z := Num.digits 10 s false 0.

Definition starts_with_decimal (s : string) : bool :=
  match s with
  | String c _ => match Num.digit 10 c with Some _ => true | None => false end
  | EmptyString => false
  end.

Definition hex_literal (s : string) : bool :=
  match s with
  | String "0"%char (String "x"%char _) => true
  | String "0"%char (String "X"%char _) => true
  | _ => false
  end.

(** Whether [p] is a regular file in the state. *)
Definition is_file (fs : FS) (p : path) : bool :=
  match fs_stat fs p with
  | Some st => isFile st
  | None => false
  end.

(** The paths a run calls the filesystem on, in order. *)
Definition accessed {A : Type} (fs : FS) (m : Prog A) : list path :=
  map event_path (log_of fs m).

(** The string held by the [packageManager] field of the manifest at [p],
    when [p] is a file that parses and the field is a string. *)
Definition packageManager_at (fs : FS) (p : path) : option string :=
  if is_file fs p then
    match fs_read_json fs p with
    | Some pkg =>
        match get_property pkg "packageManager" with
        | Value (Some (JString pm)) => Some pm
        | _ => None
        end
    | None => None
    end
  else None.

(** What the manifest at [p] yields: the parse of its [packageManager]
    string, [null] without one. *)
Definition manifest_result (AGENTS : list string) (fs : FS) (p : path)
    (cb : OnUnknown) : option DetectResult :=
  match packageManager_at fs p with
  | Some pm => processUserAgent AGENTS pm cb
  | None => None
  end.

(** Two programs that return the same value after calls on the same paths
    in the same order. *)
Definition agree {A : Type} (fs : FS) (m1 m2 : Prog A) : Prop :=
  result_of fs m1 = result_of fs m2
  /\ map event_path (log_of fs m1) = map event_path (log_of fs m2).

(** The environment value [detect] goes by: the variable when it is set to a
    non-empty string. *)
Definition env_specifier (proc : Process) : option string :=
  match env_npm_config_user_agent proc with
  | Some userAgent => if Str.truthy userAgent then Some userAgent else None
  | None => None
  end.

(** Filesystems of the worked instances. *)

(** /a/b holds a lockfile only, /a a manifest naming another agent. *)
Definition fs_nested : FS :=
  fs_of [("/a/b/yarn.lock", File None); ("/a/package.json", manifest "pnpm@9.0.0")].

(** /a holds two lockfiles of different agents and no manifest. *)
Definition fs_two_locks : FS :=
  fs_of [("/a/pnpm-lock.yaml", File None); ("/a/yarn.lock", File None)].

(** /a holds one lockfile and nothing else. *)
Definition fs_yarn_lock : FS := fs_of [("/a/yarn.lock", File None)].

(** /a holds a manifest with a [devEngines.packageManager] object only. *)
Definition fs_devEngines : FS :=
  fs_of [("/a/package.json",
          File (Some (JObject
            [("devEngines",
              JObject [("packageManager",
                        JObject [("name", JString "pnpm");
                                 ("version", JString "9.0.0")])])])))].

(** /a holds a manifest, /a/b/c nothing. *)
Definition fs_manifest_above : FS := fs_of [("/a/package.json", manifest "npm@10.1.0")].

Definition npm_result : DetectResult := mkResult "npm" "npm" Absent.

Definition options_with_strategies (dir : string) (s : list DetectStrategy)
  : DetectOptions :=
  mkOptions (Some dir) (Some s) None None UA_falsy.

Definition options_with_stopDir (dir : string) (stop : StopDir) : DetectOptions :=
  mkOptions (Some dir) None None (Some stop) UA_falsy.

Definition is_slash_a (dir : string) : bool := dir =? "/a".

Definition options_with_user_agent (dir : string) (ua : UserAgentOption)
  : DetectOptions :=
  mkOptions (Some dir) None None None ua.

(* ================================================================= *)
(** ** Sentences of the specification that the code departs from *)

(** The sentence of the specification about unknown names, at one specifier
    and one callback: an unknown name part sends the specifier to the
    callback, whose answer is the outcome. *)
Definition unknown_goes_to_callback (AGENTS : list string) (pm : string)
    (cb : OnUnknown) : Prop :=
  includes AGENTS (fst (specifier_parts pm)) = false ->
  processUserAgent AGENTS pm cb = call_onUnknown cb pm.

(** The sentence of the specification about a directory with a lockfile, at
    one filesystem, one call and one table entry: the starting directory
    holds the file [L], the table maps [L] to [A], and the outcome is the
    manifest's result or else the bare [A]. *)
Definition lockfile_decides (AGENTS : list string) (LOCKS : list (string * string))
    (fs : FS) (proc : Process) (options : DetectOptions) (L A : string) : Prop :=
  user_agent_step AGENTS proc options = None ->
  forall d rest, lookup proc (cwd options) = d :: rest ->
  In (L, A) LOCKS ->
  is_file fs (Path.join d L) = true ->
  result_of fs (detect AGENTS LOCKS proc options)
  = match manifest_result AGENTS fs (Path.join d "package.json") (onUnknown options) with
    | Some r => Some r
    | None => Some (mkResult A A Absent)
    end.

(** The sentence of the specification about the fast path, at one call whose
    options ask for it: a non-null parse of the environment value is returned
    at once, a null parse lets the walk happen, and without an environment
    value the answer is [null] and nothing is visited. *)
Definition fast_path_as_stated (AGENTS : list string)
    (LOCKS : list (string * string)) (fs : FS) (proc : Process)
    (options : DetectOptions) : Prop :=
  npm_config_user_agent options <> UA_falsy ->
  match env_specifier proc with
  | Some userAgent =>
      match processUserAgent AGENTS userAgent (onUnknown options) with
      | Some r => run fs (detect AGENTS LOCKS proc options) = (Some r, [])
      | None =>
          run fs (detect AGENTS LOCKS proc options)
          = run fs (detect_directories AGENTS LOCKS (lookup proc (cwd options))
                      (onUnknown options))
      end
  | None => run fs (detect AGENTS LOCKS proc options) = (None, [])
  end.


(* ================================================================= *)
(** ** The resolver described without filesystem calls *)

(** The directory [lookup] starts from: [path.resolve(cwd)]. *)
Definition start_directory (proc : Process) (cwd : option string) : path :=
  match cwd with
  | Some c => Path.resolve (process_cwd proc) c
  | None => process_cwd proc
  end.

(** The prefixes of a path other than the root, longest first. *)
Definition ancestors (d : path) : list path :=
  map (fun n => firstn n d) (rev (seq 1 (List.length d))).

(** The first entry of a lockfile table whose file is in [d]. *)
Definition first_lock (fs : FS) (d : path) (locks : list (string * string))
  : option (string * string) :=
  find (fun entry => is_file fs (Path.join d (fst entry))) locks.

(** What one directory yields: with a lockfile, the manifest's result or
    else the bare name; without, the manifest's result. *)
Definition directory_outcome (AGENTS : list string) (LOCKS : list (string * string))
    (fs : FS) (d : path) (cb : OnUnknown) : option DetectResult :=
  match first_lock fs d LOCKS with
  | Some (_, A) =>
      Some match manifest_result AGENTS fs (Path.join d "package.json") cb with
           | Some r => r
           | None => mkResult A A Absent
           end
  | None => manifest_result AGENTS fs (Path.join d "package.json") cb
  end.

(** The first element of a list on which [f] is defined. *)
Fixpoint first_some {A B : Type} (f : A -> option B) (l : list A) : option B :=
  match l with
  | [] => None
  | x :: rest =>
      match f x with
      | Some b => Some b
      | None => first_some f rest
      end
  end.

Definition detect_outcome (AGENTS : list string) (LOCKS : list (string * string))
    (fs : FS) (proc : Process) (options : DetectOptions) : option DetectResult :=
  match user_agent_step AGENTS proc options with
  | Some returned => returned
  | None =>
      first_some (fun d => directory_outcome AGENTS LOCKS fs d (onUnknown options))
        (lookup proc (cwd options))
  end.

(** Whether a logged call is one that suspends the caller. *)
Definition suspends (e : Event) : bool :=
  match e with
  | EvStat s _ => s
  | EvRead _ => false
  end.

(** Whether a logged call is a blocking [stat]. *)
Definition blocking_stat (e : Event) : bool :=
  match e with
  | EvStat s _ => negb s
  | EvRead _ => false
  end.

(** A logged call with its [stat] made blocking. *)
Definition blocking (e : Event) : Event :=
  match e with
  | EvStat _ p => EvStat false p
  | EvRead p => EvRead p
  end.

(** Two programs of which the second makes the calls of the first, each
    [stat] blocking, and returns the same value. *)
Definition mirrors {A : Type} (fs : FS) (m1 m2 : Prog A) : Prop :=
  result_of fs m1 = result_of fs m2
  /\ log_of fs m2 = map blocking (log_of fs m1).

(** The [stat] calls of one directory: the lockfile names of the table in
    order, then package.json. *)
Definition probes (LOCKS : list (string * string)) (d : path) : list Event :=
  map (fun f => EvStat true (Path.join d f)) (map fst LOCKS ++ ["package.json"]).

(** A call that belongs to the directory [d]: a suspending [stat] of a
    lockfile name or of package.json under [d], or the read of [d]'s
    package.json, found to be a file. *)
Definition call_of_directory (LOCKS : list (string * string)) (fs : FS)
    (d : path) (e : Event) : Prop :=
  match e with
  | EvStat s p =>
      s = true
      /\ exists f, (In f (map fst LOCKS) \/ f = "package.json") /\ p = Path.join d f
  | EvRead p => p = Path.join d "package.json" /\ is_file fs p = true
  end.

(** Two filesystem states that hold the same under every directory of [ds]. *)
Definition same_entries (ds : list path) (fs1 fs2 : FS) : Prop :=
  forall q, In (Path.dirname q) ds -> fs1 q = fs2 q.

(** /a/b holds a lockfile only, /a a manifest naming yet another agent. *)
Definition fs_nested_other : FS :=
  fs_of [("/a/b/yarn.lock", File None); ("/a/package.json", manifest "npm@10.1.0");
         ("/a/bun.lock", File None)].

(** The root itself holds a lockfile and a manifest. *)
Definition fs_root_signals : FS :=
  fs_of [("/yarn.lock", File None); ("/package.json", manifest "npm@10.1.0")].

(** Nothing anywhere. *)
Definition fs_empty : FS := fs_of [].

(* ================================================================= *)
(** * Theorems *)

(* ================================================================= *)
(** ** The specifier parser *)

Section ParserFacts.

Variable AGENTS : list string.

Lemma includes_In (xs : list string) (x : string) :
  includes xs x = true <-> In x xs.
Proof.
  unfold includes. rewrite existsb_exists. split.
  - intros [y [Hy Heq]]. apply String.eqb_eq in Heq. now subst.
  - intros Hin. exists x. split; [assumption | apply String.eqb_refl].
Qed.

Lemma split_nonempty (sep : ascii) (s : string) : Str.split sep s <> [].
Proof.
  destruct s as [|c rest]; simpl; [discriminate|].
  destruct (Ascii.eqb c sep); [discriminate|].
  destruct (Str.split sep rest); discriminate.
Qed.

(** The name part of the empty specifier is empty. *)
Lemma specifier_parts_empty : specifier_parts "" = ("", None).
Proof. reflexivity. Qed.

Lemma parts_name_nonempty (pm n : string) (ver : option string) :
  specifier_parts pm = (n, ver) -> n <> "" -> Str.truthy pm = true.
Proof.
  destruct pm; [|reflexivity].
  rewrite specifier_parts_empty. intros [= <- _] Hn. now elim Hn.
Qed.

(** A missing or empty version segment reads as NaN. *)
Lemma parseInt_missing : Num.parseInt None = None.
Proof. reflexivity. Qed.

Lemma parseInt_empty : Num.parseInt (Some "") = None.
Proof. reflexivity. Qed.

(** The four rules of [processUserAgent], one equation each. *)
Lemma rule_berry (pm : string) (cb : OnUnknown) (ver : option string) :
  specifier_parts pm = ("yarn", ver) ->
  Num.gt (Num.parseInt ver) 1 = true ->
  processUserAgent AGENTS pm cb
  = Some (mkResult "yarn" "yarn@berry" (Present "berry")).
Proof.
  intros Hparts Hgt. unfold processUserAgent.
  rewrite (parts_name_nonempty _ Hparts) by discriminate.
  simpl negb. cbv iota. rewrite Hparts. simpl String.eqb. now rewrite Hgt.
Qed.

Lemma rule_legacy (pm : string) (cb : OnUnknown) (ver : option string) :
  specifier_parts pm = ("pnpm", ver) ->
  Num.lt (Num.parseInt ver) 7 = true ->
  processUserAgent AGENTS pm cb
  = Some (mkResult "pnpm" "pnpm@6" (optional_of ver)).
Proof.
  intros Hparts Hlt. unfold processUserAgent.
  rewrite (parts_name_nonempty _ Hparts) by discriminate.
  simpl negb. cbv iota. rewrite Hparts. simpl String.eqb. simpl andb.
  now rewrite Hlt.
Qed.

Lemma rule_known (pm n : string) (cb : OnUnknown) (ver : option string) :
  Str.truthy pm = true ->
  specifier_parts pm = (n, ver) ->
  (n =? "yarn") && Num.gt (Num.parseInt ver) 1 = false ->
  (n =? "pnpm") && Num.lt (Num.parseInt ver) 7 = false ->
  In n AGENTS ->
  processUserAgent AGENTS pm cb = Some (mkResult n n (optional_of ver)).
Proof.
  intros Hpm Hparts Hberry Hlegacy Hin. unfold processUserAgent.
  rewrite Hpm. simpl negb. cbv iota. rewrite Hparts, Hberry, Hlegacy.
  apply includes_In in Hin. now rewrite Hin.
Qed.

Lemma rule_unknown (pm n : string) (cb : OnUnknown) (ver : option string) :
  Str.truthy pm = true ->
  specifier_parts pm = (n, ver) ->
  n <> "yarn" -> n <> "pnpm" ->
  includes AGENTS n = false ->
  processUserAgent AGENTS pm cb = call_onUnknown cb pm.
Proof.
  intros Hpm Hparts Hy Hp Hno. unfold processUserAgent.
  rewrite Hpm. simpl negb. cbv iota. rewrite Hparts.
  apply String.eqb_neq in Hy, Hp. now rewrite Hy, Hp, Hno.
Qed.

(** The parser is total and the empty specifier gives [null] before the
    callback is looked at. *)
Lemma empty_specifier (cb : OnUnknown) : processUserAgent AGENTS "" cb = None.
Proof. reflexivity. Qed.

End ParserFacts.


Lemma digit_not_white (c : ascii) (d : Z) :
  Num.digit 10 c = Some d -> Num.is_white c = false.
Proof.
  destruct c as [[] [] [] [] [] [] [] []]; vm_compute; congruence.
Qed.

Lemma digit_not_sign (c : ascii) (d : Z) :
  Num.digit 10 c = Some d -> c <> "-"%char /\ c <> "+"%char.
Proof.
  intros H. split; intros ->; vm_compute in H; discriminate.
Qed.

Lemma parseInt_decimal (s : string) :
  starts_with_decimal s = true -> hex_literal s = false ->
  Num.parseInt (Some s) = leading_decimal s.
Proof.
  destruct s as [|c rest]; [discriminate|].
  unfold starts_with_decimal. destruct (Num.digit 10 c) as [d|] eqn:Hd; [|discriminate].
  intros _ Hhex. unfold Num.parseInt, Num.parseInt_string, leading_decimal.
  simpl Num.trim_start. rewrite (digit_not_white _ Hd).
  destruct (digit_not_sign _ Hd) as [Hm Hp].
  assert (Hsign :
    match String c rest with
    | String "-"%char r => ((-1)%Z, r)
    | String "+"%char r => (1%Z, r)
    | _ => (1%Z, String c rest)
    end = (1%Z, String c rest)).
  { destruct c as [[] [] [] [] [] [] [] []]; try reflexivity; congruence. }
  rewrite Hsign.
  assert (Hradix :
    match String c rest with
    | String "0"%char (String "x"%char r) => (16%Z, r)
    | String "0"%char (String "X"%char r) => (16%Z, r)
    | _ => (10%Z, String c rest)
    end = (10%Z, String c rest)).
  { destruct c as [[] [] [] [] [] [] [] []]; try reflexivity.
    destruct rest as [|c' rest']; [reflexivity|].
    destruct c' as [[] [] [] [] [] [] [] []]; try reflexivity;
      simpl in Hhex; discriminate. }
  rewrite Hradix.
  destruct (Num.digits 10 (String c rest) false 0) as [n|]; [|reflexivity].
  f_equal. destruct n; reflexivity.
Qed.

Lemma leading_decimal_parseInt (v : string) (n : Z) :
  leading_decimal v = Some n -> hex_literal v = false ->
  Num.parseInt (Some v) = Some n.
Proof.
  intros Hlead Hhex. rewrite <- Hlead. apply parseInt_decimal; [|assumption].
  destruct v as [|c rest]; [discriminate|]. unfold leading_decimal in Hlead.
  simpl in *. destruct (Num.digit 10 c); [reflexivity | discriminate].
Qed.

(** A hexadecimal literal starts with the decimal digit 0. *)
Lemma hex_literal_leading_zero (v : string) (n : Z) :
  hex_literal v = true -> leading_decimal v = Some n -> n = 0%Z.
Proof.
  intros Hhex Hlead.
  destruct v as [|c v']; [discriminate Hhex|].
  destruct c as [[] [] [] [] [] [] [] []]; try discriminate Hhex.
  destruct v' as [|c' rest]; [discriminate Hhex|].
  destruct c' as [[] [] [] [] [] [] [] []]; try discriminate Hhex;
    vm_compute in Hlead; now injection Hlead as <-.
Qed.

(** *** C6 *)

(** C6. A specifier whose name part is "yarn" and whose version part reads,
    under [Number.parseInt], as an integer greater than 1 is resolved by the
    berry rule: name "yarn", agent "yarn@berry", and the version field is the
    literal "berry" instead of the version the specifier carries.  The name
    part is taken after one leading caret has been stripped. *)
Theorem C6_yarn_berry (AGENTS : list string) (pm : string) (cb : OnUnknown)
    (ver : option string) (n : Z) :
  specifier_parts pm = ("yarn", ver) ->
  Num.parseInt ver = Some n ->
  (1 < n)%Z ->
  processUserAgent AGENTS pm cb
  = Some (mkResult "yarn" "yarn@berry" (Present "berry")).
Proof.
  intros Hparts Hint Hn. apply rule_berry with (ver := ver); [assumption|].
  rewrite Hint. simpl. now apply Z.ltb_lt.
Qed.

Lemma C6_witness :
  processUserAgent AGENTS_sample "yarn@3.2.0" None
  = Some (mkResult "yarn" "yarn@berry" (Present "berry"))
  /\ processUserAgent AGENTS_sample "^yarn@3.2.0" None
     = Some (mkResult "yarn" "yarn@berry" (Present "berry")).
Proof.
  split.
  - apply (@C6_yarn_berry AGENTS_sample "yarn@3.2.0" None (Some "3.2.0") 3);
      [reflexivity | reflexivity | lia].
  - apply (@C6_yarn_berry AGENTS_sample "^yarn@3.2.0" None (Some "3.2.0") 3);
      [reflexivity | reflexivity | lia].
Defined.

(** The same for a version given by its leading decimal digits. *)
Corollary yarn_berry_decimal (AGENTS : list string) (pm v : string)
    (cb : OnUnknown) (n : Z) :
  specifier_parts pm = ("yarn", Some v) ->
  leading_decimal v = Some n ->
  (1 < n)%Z ->
  processUserAgent AGENTS pm cb
  = Some (mkResult "yarn" "yarn@berry" (Present "berry")).
Proof.
  intros Hparts Hlead Hn.
  apply rule_berry with (ver := Some v); [assumption|].
  destruct (hex_literal v) eqn:Hhex.
  - pose proof (hex_literal_leading_zero v Hhex Hlead). lia.
  - rewrite (leading_decimal_parseInt v Hlead Hhex). simpl. now apply Z.ltb_lt.
Qed.

(** *** C7 *)

(** C7. For a specifier whose name part is "pnpm": when the version part
    reads, under [Number.parseInt], as an integer below 7 the result is name
    "pnpm", agent "pnpm@6" and the version part unchanged; when the version
    part is missing, empty or reads as NaN the comparison is false, the
    legacy rule is passed over and, "pnpm" being a known agent, the result
    has agent "pnpm"; the specifier "pnpm@" is such a case. *)
Theorem C7_pnpm_legacy (AGENTS : list string) (pm : string) (cb : OnUnknown)
    (ver : option string) :
  In "pnpm" AGENTS ->
  specifier_parts pm = ("pnpm", ver) ->
  (forall n, Num.parseInt ver = Some n -> (n < 7)%Z ->
     exists v, ver = Some v /\
       processUserAgent AGENTS pm cb = Some (mkResult "pnpm" "pnpm@6" (Present v)))
  /\ (ver = None \/ ver = Some "" \/ Num.parseInt ver = None ->
      Num.lt (Num.parseInt ver) 7 = false /\
      processUserAgent AGENTS pm cb
      = Some (mkResult "pnpm" "pnpm" (optional_of ver)))
  /\ processUserAgent AGENTS "pnpm@" cb
     = Some (mkResult "pnpm" "pnpm" (Present "")).
Proof.
  intros Hin Hparts. split; [|split].
  - intros n Hint Hn. destruct ver as [v|].
    + exists v. split; [reflexivity|].
      change (Present v) with (optional_of (Some v)).
      apply rule_legacy; [assumption|]. rewrite Hint. simpl. now apply Z.ltb_lt.
    + rewrite parseInt_missing in Hint. discriminate.
  - intros Hver.
    assert (Hnan : Num.parseInt ver = None).
    { destruct Hver as [-> | [-> | H]]; [reflexivity | reflexivity | exact H]. }
    rewrite Hnan. split; [reflexivity|].
    apply rule_known; try assumption.
    + apply (parts_name_nonempty _ Hparts). discriminate.
    + reflexivity.
    + rewrite Hnan. reflexivity.
  - apply rule_known with (ver := Some ""); try reflexivity. assumption.
Qed.

Lemma C7_witness :
  (exists v, Some "6.14.0" = Some v /\
     processUserAgent AGENTS_sample "pnpm@6.14.0" None
     = Some (mkResult "pnpm" "pnpm@6" (Present v)))
  /\ processUserAgent AGENTS_sample "pnpm" None
     = Some (mkResult "pnpm" "pnpm" Undefined)
  /\ processUserAgent AGENTS_sample "pnpm@latest" None
     = Some (mkResult "pnpm" "pnpm" (Present "latest")).
Proof.
  split; [|split].
  - refine (proj1 (@C7_pnpm_legacy AGENTS_sample "pnpm@6.14.0" None
                     (Some "6.14.0") _ _) 6%Z _ _);
      [simpl; tauto | reflexivity | reflexivity | lia].
  - refine (proj2 (proj1 (proj2 (@C7_pnpm_legacy AGENTS_sample "pnpm" None
                     None _ _)) _));
      [simpl; tauto | reflexivity | left; reflexivity].
  - refine (proj2 (proj1 (proj2 (@C7_pnpm_legacy AGENTS_sample "pnpm@latest" None
                     (Some "latest") _ _)) _));
      [simpl; tauto | reflexivity | right; right; reflexivity].
Defined.

(** The same for a version given by its leading decimal digits; a version
    written as a hexadecimal literal is read in base 16 instead. *)
Corollary pnpm_legacy_decimal (AGENTS : list string) (pm v : string)
    (cb : OnUnknown) (n : Z) :
  specifier_parts pm = ("pnpm", Some v) ->
  leading_decimal v = Some n ->
  hex_literal v = false ->
  (n < 7)%Z ->
  processUserAgent AGENTS pm cb = Some (mkResult "pnpm" "pnpm@6" (Present v)).
Proof.
  intros Hparts Hlead Hhex Hn.
  change (Present v) with (optional_of (Some v)).
  apply rule_legacy; [assumption|].
  rewrite (leading_decimal_parseInt v Hlead Hhex). simpl. now apply Z.ltb_lt.
Qed.

Example pnpm_hexadecimal_version :
  Num.parseInt (Some "0x10") = Some 16%Z
  /\ processUserAgent AGENTS_sample "pnpm@0x10" None
     = Some (mkResult "pnpm" "pnpm" (Present "0x10")).
Proof. split; reflexivity. Qed.

(** *** C8 *)


(** The empty specifier has an unknown (empty) name part, yet the guard at the
    top of [processUserAgent] answers [null] without calling a callback that
    would have answered with a result. *)
Lemma C8_counterexample :
  ~ unknown_goes_to_callback AGENTS_sample "" (Some (fun _ => Some npm_result)).
Proof.
  unfold unknown_goes_to_callback. intros H.
  specialize (H eq_refl). discriminate H.
Qed.

(** C8 (amended). For every non-empty specifier whose name part is not a known
    agent, the known agents including "yarn" and "pnpm", the parser returns
    what the callback returns for the specifier itself: [null] when the
    callback is absent or answers [null] or [undefined], the callback's
    result otherwise.  The empty specifier gives [null] and the callback is
    not consulted. *)
Theorem C8_unknown_specifier (AGENTS : list string) (pm : string)
    (cb : OnUnknown) :
  In "yarn" AGENTS -> In "pnpm" AGENTS ->
  pm <> "" ->
  includes AGENTS (fst (specifier_parts pm)) = false ->
  processUserAgent AGENTS pm cb = call_onUnknown cb pm
  /\ (cb = None -> processUserAgent AGENTS pm cb = None)
  /\ (forall f, cb = Some f -> processUserAgent AGENTS pm cb = f pm)
  /\ processUserAgent AGENTS "" cb = None.
Proof.
  intros Hyarn Hpnpm Hpm Hunknown.
  assert (Hcall : processUserAgent AGENTS pm cb = call_onUnknown cb pm).
  { destruct (specifier_parts pm) as [n ver] eqn:Hparts. simpl in Hunknown.
    apply rule_unknown with (n := n) (ver := ver); try assumption.
    - destruct pm; [now elim Hpm | reflexivity].
    - intros ->. apply includes_In in Hyarn. congruence.
    - intros ->. apply includes_In in Hpnpm. congruence. }
  split; [exact Hcall|]. split; [|split].
  - intros ->. exact Hcall.
  - intros f ->. exact Hcall.
  - reflexivity.
Qed.

Lemma C8_witness :
  processUserAgent AGENTS_sample "foo@1.0.0" None = None
  /\ processUserAgent AGENTS_sample "foo@1.0.0" (Some (fun _ => Some npm_result))
     = Some npm_result.
Proof.
  split.
  - refine (proj1 (proj2 (@C8_unknown_specifier AGENTS_sample "foo@1.0.0" None
                            _ _ _ _)) eq_refl);
      [simpl; tauto | simpl; tauto | discriminate | reflexivity].
  - refine (proj1 (proj2 (proj2 (@C8_unknown_specifier AGENTS_sample "foo@1.0.0"
                            (Some (fun _ => Some npm_result)) _ _ _ _))) _ eq_refl);
      [simpl; tauto | simpl; tauto | discriminate | reflexivity].
Defined.

(* ================================================================= *)
(** ** Running programs *)

Section RunFacts.

Variable fs : FS.

Lemma run_pair {A : Type} (m : Prog A) :
  run fs m = (result_of fs m, log_of fs m).
Proof. unfold result_of, log_of. now destruct (run fs m). Qed.

Lemma result_of_bind {A B : Type} (m : Prog A) (f : A -> Prog B) :
  result_of fs (bind m f) = result_of fs (f (result_of fs m)).
Proof.
  unfold result_of.
  induction m as [a | p k IH | p k IH | p k IH]; simpl; [reflexivity | | |].
  - specialize (IH (fs_stat fs p)).
    destruct (run fs (bind (k (fs_stat fs p)) f)), (run fs (k (fs_stat fs p))).
    exact IH.
  - specialize (IH (fs_stat fs p)).
    destruct (run fs (bind (k (fs_stat fs p)) f)), (run fs (k (fs_stat fs p))).
    exact IH.
  - specialize (IH (fs_read_json fs p)).
    destruct (run fs (bind (k (fs_read_json fs p)) f)),
      (run fs (k (fs_read_json fs p))).
    exact IH.
Qed.

Lemma log_of_bind {A B : Type} (m : Prog A) (f : A -> Prog B) :
  log_of fs (bind m f) = log_of fs m ++ log_of fs (f (result_of fs m)).
Proof.
  unfold log_of, result_of.
  induction m as [a | p k IH | p k IH | p k IH]; simpl; [reflexivity | | |].
  - specialize (IH (fs_stat fs p)).
    destruct (run fs (bind (k (fs_stat fs p)) f)), (run fs (k (fs_stat fs p))).
    simpl in *. now rewrite IH.
  - specialize (IH (fs_stat fs p)).
    destruct (run fs (bind (k (fs_stat fs p)) f)), (run fs (k (fs_stat fs p))).
    simpl in *. now rewrite IH.
  - specialize (IH (fs_read_json fs p)).
    destruct (run fs (bind (k (fs_read_json fs p)) f)),
      (run fs (k (fs_read_json fs p))).
    simpl in *. now rewrite IH.
Qed.


Lemma result_of_fileExists (p : path) : result_of fs (fileExists p) = is_file fs p.
Proof.
  unfold result_of, is_file. simpl.
  destruct (fs_stat fs p) as [[]|]; reflexivity.
Qed.

Lemma result_of_fileExistsSync (p : path) :
  result_of fs (fileExistsSync p) = is_file fs p.
Proof.
  unfold result_of, is_file. simpl.
  destruct (fs_stat fs p) as [[]|]; reflexivity.
Qed.

Lemma log_of_fileExists (p : path) : log_of fs (fileExists p) = [EvStat true p].
Proof.
  unfold log_of. simpl. destruct (fs_stat fs p) as [[]|]; reflexivity.
Qed.

Lemma log_of_fileExistsSync (p : path) :
  log_of fs (fileExistsSync p) = [EvStat false p].
Proof.
  unfold log_of. simpl. destruct (fs_stat fs p) as [[]|]; reflexivity.
Qed.


Lemma agree_refl {A : Type} (m : Prog A) : agree fs m m.
Proof. split; reflexivity. Qed.

Lemma agree_bind {A B : Type} (m1 m2 : Prog A) (f1 f2 : A -> Prog B) :
  agree fs m1 m2 -> (forall a, agree fs (f1 a) (f2 a)) ->
  agree fs (bind m1 f1) (bind m2 f2).
Proof.
  intros [Hres Hlog] Hf. split.
  - rewrite !result_of_bind, Hres. apply Hf.
  - rewrite !log_of_bind, !map_app, Hlog, Hres. f_equal. apply Hf.
Qed.

Lemma agree_fileExists (p : path) : agree fs (fileExists p) (fileExistsSync p).
Proof.
  split.
  - now rewrite result_of_fileExists, result_of_fileExistsSync.
  - now rewrite log_of_fileExists, log_of_fileExistsSync.
Qed.

End RunFacts.

(* ================================================================= *)
(** ** The directory walker *)

Section Walker.

Lemma path_eqb_root (p : path) : Path.eqb p Path.root = true <-> p = [].
Proof.
  unfold Path.eqb, Path.root.
  destruct (list_eq_dec string_dec p []); split; congruence.
Qed.

Lemma path_eqb_eq (p q : path) : Path.eqb p q = true <-> p = q.
Proof.
  unfold Path.eqb. destruct (list_eq_dec string_dec p q); split; congruence.
Qed.

Lemma dirname_shorter (p : path) :
  p <> [] -> S (List.length (Path.dirname p)) = List.length p.
Proof.
  intros Hp. unfold Path.dirname.
  destruct (exists_last Hp) as [q [x ->]].
  rewrite removelast_last, length_app. simpl. lia.
Qed.

Lemma lookup_loop_unfold (fuel : nat) (d : path) :
  d <> [] ->
  lookup_loop (S fuel) d = d :: lookup_loop fuel (Path.dirname d).
Proof.
  intros Hd. simpl.
  destruct (Path.eqb d Path.root) eqn:E; [|reflexivity].
  apply path_eqb_root in E. contradiction.
Qed.

Lemma lookup_loop_root (fuel : nat) : lookup_loop fuel [] = [].
Proof. destruct fuel; reflexivity. Qed.

(** The loop ends by itself: any bound above the depth of the starting
    directory gives the same sequence, so the bound is never what stops
    the loop. *)
Lemma lookup_loop_fuel (fuel1 fuel2 : nat) (d : path) :
  List.length d < fuel1 -> List.length d < fuel2 ->
  lookup_loop fuel1 d = lookup_loop fuel2 d.
Proof.
  revert fuel2 d. induction fuel1 as [|fuel1 IH]; intros fuel2 d H1 H2; [lia|].
  destruct fuel2 as [|fuel2]; [lia|].
  destruct d as [|x d'] eqn:Ed; [reflexivity|]. rewrite <- Ed.
  assert (Hd : d <> []) by (rewrite Ed; discriminate).
  rewrite !lookup_loop_unfold by assumption. f_equal.
  pose proof (dirname_shorter Hd) as Hlen. rewrite <- Ed in H1, H2.
  apply IH; lia.
Qed.


(** Every directory of the sequence is below the root and no deeper than
    the starting directory. *)
Lemma lookup_loop_bounds (fuel : nat) (d x : path) :
  In x (lookup_loop fuel d) -> x <> [] /\ List.length x <= List.length d.
Proof.
  revert d. induction fuel as [|fuel IH]; intros d Hin; [contradiction|].
  simpl in Hin. destruct (Path.eqb d Path.root) eqn:E; [contradiction|].
  assert (Hd : d <> []).
  { intros ->. now rewrite (proj2 (path_eqb_root []) eq_refl) in E. }
  destruct Hin as [<- | Hin]; [split; [assumption | lia]|].
  apply IH in Hin. pose proof (dirname_shorter Hd). split; [tauto | lia].
Qed.

(** Child before parent: whatever follows a directory in the sequence is
    strictly shallower. *)
Lemma lookup_loop_descending (fuel : nat) (d : path) (l1 l2 : list path)
    (x y : path) :
  lookup_loop fuel d = l1 ++ x :: l2 -> In y l2 ->
  List.length y < List.length x.
Proof.
  revert fuel d. induction l1 as [|z l1 IH]; intros fuel d Heq Hy.
  - destruct fuel as [|fuel]; [discriminate|]. simpl in Heq.
    destruct (Path.eqb d Path.root) eqn:E; [discriminate|].
    injection Heq as Hx Hl2. subst x.
    assert (Hd : d <> []).
    { intros ->. now rewrite (proj2 (path_eqb_root []) eq_refl) in E. }
    rewrite <- Hl2 in Hy. apply lookup_loop_bounds in Hy.
    pose proof (dirname_shorter Hd). lia.
  - destruct fuel as [|fuel]; [discriminate|]. simpl in Heq.
    destruct (Path.eqb d Path.root) eqn:E; [discriminate|].
    injection Heq as _ Heq. eapply IH; eassumption.
Qed.

(** Each directory of the sequence is followed by its parent. *)
Lemma lookup_loop_parent (fuel : nat) (d : path) (l1 l2 : list path)
    (x y : path) :
  lookup_loop fuel d = l1 ++ x :: y :: l2 -> y = Path.dirname x.
Proof.
  revert fuel d. induction l1 as [|z l1 IH]; intros fuel d Heq.
  - destruct fuel as [|fuel]; [discriminate|]. simpl in Heq.
    destruct (Path.eqb d Path.root); [discriminate|].
    injection Heq as -> Hrest.
    destruct fuel as [|fuel]; [discriminate|]. simpl in Hrest.
    destruct (Path.eqb (Path.dirname x) Path.root); [discriminate|].
    now injection Hrest as <- _.
  - destruct fuel as [|fuel]; [discriminate|]. simpl in Heq.
    destruct (Path.eqb d Path.root); [discriminate|].
    injection Heq as _ Heq. eapply IH; eassumption.
Qed.

Lemma lookup_loop_NoDup (fuel : nat) (d : path) : NoDup (lookup_loop fuel d).
Proof.
  revert d. induction fuel as [|fuel IH]; intros d; [constructor|].
  simpl. destruct (Path.eqb d Path.root) eqn:E; [constructor|].
  constructor; [|apply IH].
  intros Hin. apply lookup_loop_bounds in Hin.
  assert (Hd : d <> []).
  { intros ->. now rewrite (proj2 (path_eqb_root []) eq_refl) in E. }
  pose proof (dirname_shorter Hd). lia.
Qed.

(** The root is never part of the sequence. *)
Lemma lookup_excludes_root (proc : Process) (c : option string) :
  ~ In Path.root (lookup proc c).
Proof.
  unfold lookup. intros Hin. apply lookup_loop_bounds in Hin.
  now destruct Hin as [H _].
Qed.

(** A name without separator that is neither empty nor a dot name is joined
    as one more segment. *)
Lemma split_no_separator (sep : ascii) (s : string) :
  Str.contains sep s = false -> Str.split sep s = [s].
Proof.
  unfold Str.contains. induction s as [|c rest IH]; [reflexivity|].
  simpl. rewrite Ascii.eqb_sym.
  destruct (Ascii.eqb c sep); [discriminate|]. simpl.
  intros H. now rewrite (IH H).
Qed.

Lemma join_plain (d : path) (f : string) :
  Path.plain f = true -> Path.join d f = d ++ [f].
Proof.
  unfold Path.plain, Path.join, Path.onto. intros H.
  apply andb_prop in H as [H Hdd]. apply andb_prop in H as [H Hd].
  apply andb_prop in H as [Hsep He].
  apply negb_true_iff in Hsep, He, Hd, Hdd.
  rewrite (split_no_separator _ _ Hsep). simpl. unfold Path.step.
  now rewrite He, Hd, Hdd.
Qed.

Lemma dirname_join_plain (d : path) (f : string) :
  Path.plain f = true -> Path.dirname (Path.join d f) = d.
Proof.
  intros H. rewrite (join_plain d f H). apply removelast_last.
Qed.

End Walker.

(* ================================================================= *)
(** ** The resolver *)

Arguments bind : simpl never.


Section ResolverFacts.

Variable AGENTS : list string.
Variable LOCKS : list (string * string).
Variable fs : FS.


Lemma result_of_parsePackageJson (p : path) (cb : OnUnknown) :
  result_of fs (parsePackageJson AGENTS p cb) = manifest_result AGENTS fs p cb.
Proof.
  unfold parsePackageJson, manifest_result, packageManager_at.
  rewrite result_of_bind, result_of_fileExists.
  destruct (is_file fs p); [|reflexivity].
  unfold result_of. simpl.
  destruct (fs_read_json fs p) as [pkg|]; [|reflexivity].
  destruct (get_property pkg "packageManager") as [|[[]|]]; reflexivity.
Qed.

Lemma log_of_handlePackageManager (p : path) (cb : OnUnknown) :
  log_of fs (handlePackageManager AGENTS p cb) = [EvRead p].
Proof.
  unfold log_of. simpl.
  destruct (fs_read_json fs p) as [pkg|]; [|reflexivity].
  destruct (get_property pkg "packageManager") as [|[[]|]]; reflexivity.
Qed.

Lemma accessed_parsePackageJson (p : path) (cb : OnUnknown) (q : path) :
  In q (accessed fs (parsePackageJson AGENTS p cb)) -> q = p.
Proof.
  unfold accessed, parsePackageJson.
  rewrite log_of_bind, log_of_fileExists, result_of_fileExists.
  destruct (is_file fs p); simpl.
  - rewrite log_of_handlePackageManager. simpl. intuition congruence.
  - unfold log_of. simpl. intuition congruence.
Qed.

(** *** The two variants agree *)

Lemma agree_parsePackageJson (p : path) (cb : OnUnknown) :
  agree fs (parsePackageJson AGENTS p cb) (parsePackageJsonSync AGENTS p cb).
Proof.
  unfold parsePackageJson, parsePackageJsonSync.
  apply agree_bind; [apply agree_fileExists | intros a; apply agree_refl].
Qed.

Lemma agree_locks (d : path) (cb : OnUnknown) (locks : list (string * string)) :
  agree fs (detect_locks AGENTS d cb locks) (detectSync_locks AGENTS d cb locks).
Proof.
  induction locks as [|[lock nm] locks IH]; [apply agree_refl|].
  simpl. apply agree_bind; [apply agree_fileExists|].
  intros [|]; [|exact IH].
  apply agree_bind; [apply agree_parsePackageJson | intros a; apply agree_refl].
Qed.

Lemma agree_directory (d : path) (cb : OnUnknown) :
  agree fs (detect_directory AGENTS LOCKS d cb)
           (detectSync_directory AGENTS LOCKS d cb).
Proof.
  unfold detect_directory, detectSync_directory.
  apply agree_bind; [apply agree_locks|].
  intros [r|]; [apply agree_refl | apply agree_parsePackageJson].
Qed.

Lemma agree_directories (ds : list path) (cb : OnUnknown) :
  agree fs (detect_directories AGENTS LOCKS ds cb)
           (detectSync_directories AGENTS LOCKS ds cb).
Proof.
  induction ds as [|d ds IH]; [apply agree_refl|].
  simpl. apply agree_bind; [apply agree_directory|].
  intros [r|]; [apply agree_refl | exact IH].
Qed.

Lemma agree_detect (proc : Process) (options : DetectOptions) :
  agree fs (detect AGENTS LOCKS proc options)
           (detectSync AGENTS LOCKS proc options).
Proof.
  unfold detect, detectSync.
  destruct (user_agent_step AGENTS proc options);
    [apply agree_refl | apply agree_directories].
Qed.

(** *** The lockfile loop *)

(** The loop passes over the entries whose file is missing. *)
Lemma locks_skip (d : path) (cb : OnUnknown)
    (earlier later : list (string * string)) :
  (forall K, In K (map fst earlier) -> is_file fs (Path.join d K) = false) ->
  result_of fs (detect_locks AGENTS d cb (earlier ++ later))
  = result_of fs (detect_locks AGENTS d cb later).
Proof.
  induction earlier as [|[K nm] earlier IH]; intros Hmiss; [reflexivity|].
  simpl. rewrite result_of_bind, result_of_fileExists.
  rewrite (Hmiss K) by (left; reflexivity).
  apply IH. intros K' HK'. apply Hmiss. now right.
Qed.

(** At the first entry whose file is there, the loop returns from [detect]:
    with the manifest's result if it has one, with the bare name if not. *)
Lemma locks_hit (d : path) (cb : OnUnknown) (L A : string)
    (later : list (string * string)) :
  is_file fs (Path.join d L) = true ->
  result_of fs (detect_locks AGENTS d cb ((L, A) :: later))
  = match manifest_result AGENTS fs (Path.join d "package.json") cb with
    | Some r => Some r
    | None => Some (mkResult A A Absent)
    end.
Proof.
  intros Hfile. simpl. rewrite result_of_bind, result_of_fileExists, Hfile.
  rewrite result_of_bind, result_of_parsePackageJson.
  destruct (manifest_result AGENTS fs (Path.join d "package.json") cb); reflexivity.
Qed.

Lemma accessed_locks (d : path) (cb : OnUnknown)
    (locks : list (string * string)) (q : path) :
  In q (accessed fs (detect_locks AGENTS d cb locks)) ->
  exists f, (In f (map fst locks) \/ f = "package.json") /\ q = Path.join d f.
Proof.
  unfold accessed. induction locks as [|[lock nm] locks IH]; [contradiction|].
  simpl detect_locks. rewrite log_of_bind, log_of_fileExists, result_of_fileExists.
  simpl. intros [<- | Hin].
  - exists lock. split; [left; now left | reflexivity].
  - destruct (is_file fs (Path.join d lock)).
    + rewrite log_of_bind, map_app in Hin. apply in_app_or in Hin as [Hin | Hin].
      * apply accessed_parsePackageJson in Hin.
        exists "package.json". split; [now right | assumption].
      * destruct (result_of fs
                    (parsePackageJson AGENTS (Path.join d "package.json") cb));
          contradiction.
    + destruct (IH Hin) as [f [[Hf | Hf] Hq]].
      * exists f. split; [left; now right | assumption].
      * exists f. split; [now right | assumption].
Qed.

Lemma accessed_directory (d : path) (cb : OnUnknown) (q : path) :
  In q (accessed fs (detect_directory AGENTS LOCKS d cb)) ->
  exists f, (In f (map fst LOCKS) \/ f = "package.json") /\ q = Path.join d f.
Proof.
  unfold accessed, detect_directory. rewrite log_of_bind, map_app.
  intros Hin. apply in_app_or in Hin as [Hin | Hin].
  - now apply accessed_locks in Hin.
  - destruct (result_of fs (detect_locks AGENTS d cb LOCKS)); [contradiction|].
    apply accessed_parsePackageJson in Hin.
    exists "package.json". split; [now right | assumption].
Qed.

(** *** The loop over the directories *)

(** The loop returns at the first directory that yields a result, and what
    it has called by then is what the bodies of the directories up to that
    one call, in order. *)
Lemma directories_first_hit (before after : list path) (d : path)
    (r : DetectResult) (cb : OnUnknown) :
  (forall d', In d' before ->
     result_of fs (detect_directory AGENTS LOCKS d' cb) = None) ->
  result_of fs (detect_directory AGENTS LOCKS d cb) = Some r ->
  result_of fs (detect_directories AGENTS LOCKS (before ++ d :: after) cb) = Some r
  /\ log_of fs (detect_directories AGENTS LOCKS (before ++ d :: after) cb)
     = flat_map (fun d' => log_of fs (detect_directory AGENTS LOCKS d' cb))
                (before ++ [d]).
Proof.
  intros Hbefore Hd. induction before as [|b before IH]; simpl.
  - rewrite result_of_bind, log_of_bind, Hd. split; [reflexivity|].
    unfold log_of at 2. simpl. reflexivity.
  - rewrite result_of_bind, log_of_bind, (Hbefore b) by (now left).
    destruct IH as [IHr IHl]; [intros d' Hd'; apply Hbefore; now right|].
    split; [exact IHr | now rewrite IHl].
Qed.

(** When no directory yields a result the loop ends with [null]. *)
Lemma directories_no_hit (ds : list path) (cb : OnUnknown) :
  (forall d', In d' ds ->
     result_of fs (detect_directory AGENTS LOCKS d' cb) = None) ->
  result_of fs (detect_directories AGENTS LOCKS ds cb) = None.
Proof.
  induction ds as [|d ds IH]; intros Hnone; [reflexivity|].
  simpl. rewrite result_of_bind, (Hnone d) by (now left).
  apply IH. intros d' Hd'. apply Hnone. now right.
Qed.

End ResolverFacts.

(* ================================================================= *)
(** ** Properties of [detect] and [detectSync] *)


Lemma descending_across (fuel : nat) (start : path) (l1 l2 : list path)
    (z a : path) :
  lookup_loop fuel start = l1 ++ l2 -> In z l1 -> In a l2 ->
  List.length a < List.length z.
Proof.
  intros Heq Hz Ha. apply in_split in Hz as [u [v ->]].
  rewrite <- app_assoc in Heq. simpl in Heq.
  eapply lookup_loop_descending; [exact Heq|]. apply in_or_app. now right.
Qed.

(** *** C9 *)

(** C9. For all options, every process environment and every filesystem
    state, [detect] and [detectSync] return the same value, a result with the
    same fields or [null] in both, after calling the filesystem on the same
    paths in the same order. *)
Theorem C9_detect_detectSync_agree (AGENTS : list string)
    (LOCKS : list (string * string)) (fs : FS) (proc : Process)
    (options : DetectOptions) :
  result_of fs (detect AGENTS LOCKS proc options)
  = result_of fs (detectSync AGENTS LOCKS proc options)
  /\ accessed fs (detect AGENTS LOCKS proc options)
     = accessed fs (detectSync AGENTS LOCKS proc options).
Proof. apply agree_detect. Qed.

(** *** C1 *)

(** C1. Let the walk from the starting directory be [before ++ d :: after],
    the lockfile names being plain file names and the first statement of
    [detect] leaving the walk to happen.  If no directory of [before] yields a
    result and [d] yields [r], then [detect] and [detectSync] return [r], and
    every path they call the filesystem on is an entry of a directory of
    [before ++ [d]]: none is an entry of, or is, a directory of [after],
    whatever those hold. *)
Theorem C1_nearest_result_wins (AGENTS : list string)
    (LOCKS : list (string * string)) (fs : FS) (proc : Process)
    (options : DetectOptions) (before after : list path) (d : path)
    (r : DetectResult) :
  forallb Path.plain (map fst LOCKS) = true ->
  user_agent_step AGENTS proc options = None ->
  lookup proc (cwd options) = before ++ d :: after ->
  (forall d', In d' before ->
     result_of fs (detect_directory AGENTS LOCKS d' (onUnknown options)) = None) ->
  result_of fs (detect_directory AGENTS LOCKS d (onUnknown options)) = Some r ->
  result_of fs (detect AGENTS LOCKS proc options) = Some r
  /\ result_of fs (detectSync AGENTS LOCKS proc options) = Some r
  /\ (forall q,
        In q (accessed fs (detect AGENTS LOCKS proc options))
        \/ In q (accessed fs (detectSync AGENTS LOCKS proc options)) ->
        In (Path.dirname q) (before ++ [d])
        /\ ~ In (Path.dirname q) after
        /\ ~ In q after).
Proof.
  intros Hplain Hstep Hwalk Hbefore Hd.
  destruct (agree_detect AGENTS LOCKS fs proc options) as [Hres Hacc].
  fold (accessed fs (detect AGENTS LOCKS proc options)) in Hacc.
  fold (accessed fs (detectSync AGENTS LOCKS proc options)) in Hacc.
  destruct (@directories_first_hit AGENTS LOCKS fs before after d r
              (onUnknown options) Hbefore Hd) as [Hr Hlog].
  assert (Hdetect : detect AGENTS LOCKS proc options
                    = detect_directories AGENTS LOCKS (before ++ d :: after)
                        (onUnknown options)).
  { unfold detect. now rewrite Hstep, Hwalk. }
  split; [now rewrite Hdetect|]. split; [now rewrite <- Hres, Hdetect|].
  intros q Hq. rewrite <- Hacc in Hq.
  assert (Hin : In q (accessed fs (detect AGENTS LOCKS proc options))) by tauto.
  clear Hq. unfold accessed in Hin. rewrite Hdetect, Hlog in Hin.
  apply in_map_iff in Hin as [e [<- He]].
  apply in_flat_map in He as [d' [Hd' He]].
  assert (Hq : In (event_path e)
                 (accessed fs (detect_directory AGENTS LOCKS d' (onUnknown options)))).
  { unfold accessed. now apply in_map. }
  apply accessed_directory in Hq as [f [Hf ->]].
  assert (Hpf : Path.plain f = true).
  { destruct Hf as [Hf | ->]; [|reflexivity].
    rewrite forallb_forall in Hplain. now apply Hplain. }
  rewrite (dirname_join_plain d' f Hpf), (join_plain d' f Hpf).
  assert (Hshort : forall a, In a after -> List.length a < List.length d').
  { intros a Ha. unfold lookup in Hwalk.
    eapply descending_across with (l1 := before ++ [d]) (l2 := after);
      [rewrite <- app_assoc; exact Hwalk | exact Hd' | exact Ha]. }
  split; [exact Hd'|]. split.
  - intros Ha. apply Hshort in Ha. lia.
  - intros Ha. apply Hshort in Ha. rewrite length_app in Ha. simpl in Ha. lia.
Qed.

(** Started in /a/b/c, which is empty, below /a/b, which holds a lockfile
    only, below /a, whose manifest names pnpm: the lockfile decides and /a is
    not looked at. *)
Lemma C1_witness :
  result_of fs_nested
    (detect AGENTS_sample LOCKS_sample plain_process (options_at "/a/b/c"))
  = Some (mkResult "yarn" "yarn" Absent)
  /\ result_of fs_nested
       (detectSync AGENTS_sample LOCKS_sample plain_process (options_at "/a/b/c"))
     = Some (mkResult "yarn" "yarn" Absent)
  /\ (forall q,
        In q (accessed fs_nested
                (detect AGENTS_sample LOCKS_sample plain_process
                   (options_at "/a/b/c")))
        \/ In q (accessed fs_nested
                   (detectSync AGENTS_sample LOCKS_sample plain_process
                      (options_at "/a/b/c"))) ->
        In (Path.dirname q) ([["a"; "b"; "c"]] ++ [["a"; "b"]])
        /\ ~ In (Path.dirname q) [["a"]]
        /\ ~ In q [["a"]]).
Proof.
  apply (@C1_nearest_result_wins AGENTS_sample LOCKS_sample fs_nested plain_process
           (options_at "/a/b/c") [["a"; "b"; "c"]] [["a"]] ["a"; "b"]
           (mkResult "yarn" "yarn" Absent)).
  - reflexivity.
  - reflexivity.
  - reflexivity.
  - intros d' [<- | []]. reflexivity.
  - reflexivity.
Defined.

(** *** C2 *)


(** Whatever the table, the sentence cannot hold of two lockfiles of one
    directory that the table maps to different agents. *)
Lemma lockfile_decides_conflict (AGENTS : list string)
    (LOCKS : list (string * string)) (fs : FS) (proc : Process)
    (options : DetectOptions) (d : path) (rest : list path)
    (L1 A1 L2 A2 : string) :
  user_agent_step AGENTS proc options = None ->
  lookup proc (cwd options) = d :: rest ->
  In (L1, A1) LOCKS -> In (L2, A2) LOCKS -> A1 <> A2 ->
  is_file fs (Path.join d L1) = true ->
  is_file fs (Path.join d L2) = true ->
  manifest_result AGENTS fs (Path.join d "package.json") (onUnknown options) = None ->
  ~ (lockfile_decides AGENTS LOCKS fs proc options L1 A1
     /\ lockfile_decides AGENTS LOCKS fs proc options L2 A2).
Proof.
  intros Hstep Hwalk Hin1 Hin2 Hneq Hf1 Hf2 Hnone [H1 H2].
  specialize (H1 Hstep d rest Hwalk Hin1 Hf1).
  specialize (H2 Hstep d rest Hwalk Hin2 Hf2).
  rewrite Hnone in H1, H2. rewrite H1 in H2. injection H2 as Heq _. contradiction.
Qed.

(** /a holds pnpm-lock.yaml and yarn.lock and no manifest: the answer is pnpm,
    not the yarn that yarn.lock maps to. *)
Lemma C2_counterexample :
  ~ lockfile_decides AGENTS_sample LOCKS_sample fs_two_locks plain_process
      (options_at "/a") "yarn.lock" "yarn".
Proof.
  unfold lockfile_decides. intros H.
  specialize (H eq_refl ["a"] [] eq_refl).
  assert (Hin : In ("yarn.lock", "yarn") LOCKS_sample) by (simpl; tauto).
  specialize (H Hin eq_refl). vm_compute in H. discriminate H.
Qed.

(** C2 (amended). Let [d] be a directory of the walk such that no directory
    before it yields a result, [L] a table entry mapped to [A] whose file is
    in [d], no name listed before [L] in the table being a file in [d].  Then
    [detect] and [detectSync] return the result of the [packageManager] field
    of [d]'s package.json when that is not [null], and otherwise the result
    with name [A], agent [A] and no version field; the latter in particular
    when [d] has no package.json. *)
Theorem C2_first_lockfile_decides (AGENTS : list string)
    (LOCKS earlier later : list (string * string)) (fs : FS) (proc : Process)
    (options : DetectOptions) (before after : list path) (d : path)
    (L A : string) :
  user_agent_step AGENTS proc options = None ->
  lookup proc (cwd options) = before ++ d :: after ->
  (forall d', In d' before ->
     result_of fs (detect_directory AGENTS LOCKS d' (onUnknown options)) = None) ->
  LOCKS = earlier ++ (L, A) :: later ->
  (forall K, In K (map fst earlier) -> is_file fs (Path.join d K) = false) ->
  is_file fs (Path.join d L) = true ->
  let outcome :=
    match manifest_result AGENTS fs (Path.join d "package.json") (onUnknown options) with
    | Some r => r
    | None => mkResult A A Absent
    end in
  result_of fs (detect AGENTS LOCKS proc options) = Some outcome
  /\ result_of fs (detectSync AGENTS LOCKS proc options) = Some outcome
  /\ (fs (Path.join d "package.json") = None -> outcome = mkResult A A Absent).
Proof.
  intros Hstep Hwalk Hbefore Htable Hearlier Hfile outcome.
  assert (Hd : result_of fs (detect_directory AGENTS LOCKS d (onUnknown options))
               = Some outcome).
  { unfold detect_directory. rewrite result_of_bind, Htable.
    rewrite (locks_skip AGENTS fs d _ earlier _ Hearlier).
    rewrite (locks_hit AGENTS fs d _ L A later Hfile). subst outcome.
    destruct (manifest_result AGENTS fs (Path.join d "package.json")
                (onUnknown options)); reflexivity. }
  destruct (@directories_first_hit AGENTS LOCKS fs before after d outcome
              (onUnknown options) Hbefore Hd) as [Hr _].
  assert (Hdetect : result_of fs (detect AGENTS LOCKS proc options) = Some outcome).
  { unfold detect. now rewrite Hstep, Hwalk. }
  split; [exact Hdetect|]. split.
  - rewrite <- Hdetect. symmetry. apply agree_detect.
  - intros Hnone. subst outcome. unfold manifest_result, packageManager_at, is_file,
      fs_stat. now rewrite Hnone.
Qed.

(** In /a/b/c, empty, below /a/b with yarn.lock only: yarn.  In /a with
    pnpm-lock.yaml and yarn.lock: pnpm, the entry listed first. *)
Lemma C2_witness :
  result_of fs_nested
    (detect AGENTS_sample LOCKS_sample plain_process (options_at "/a/b/c"))
  = Some (mkResult "yarn" "yarn" Absent)
  /\ result_of fs_two_locks
       (detect AGENTS_sample LOCKS_sample plain_process (options_at "/a"))
     = Some (mkResult "pnpm" "pnpm" Absent).
Proof.
  split.
  - refine (proj1 (@C2_first_lockfile_decides AGENTS_sample LOCKS_sample
                     (firstn 5 LOCKS_sample) (skipn 6 LOCKS_sample)
                     fs_nested plain_process (options_at "/a/b/c")
                     [["a"; "b"; "c"]] [["a"]] ["a"; "b"]
                     "yarn.lock" "yarn" _ _ _ _ _ _));
      try reflexivity.
    + intros d' [<- | []]. reflexivity.
    + intros K HK. simpl in HK.
      repeat (destruct HK as [<- | HK]; [reflexivity|]). contradiction.
  - refine (proj1 (@C2_first_lockfile_decides AGENTS_sample LOCKS_sample
                     (firstn 3 LOCKS_sample) (skipn 4 LOCKS_sample)
                     fs_two_locks plain_process (options_at "/a") [] [] ["a"]
                     "pnpm-lock.yaml" "pnpm" _ _ _ _ _ _));
      try reflexivity.
    + intros d' [].
    + intros K HK. simpl in HK.
      repeat (destruct HK as [<- | HK]; [reflexivity|]). contradiction.
Defined.

(** *** What the walk looks like *)

(** The sequence of [lookup] always ends, leaves the root out, lists each
    directory once and lists after each directory its parent. *)
Lemma lookup_walk_shape (proc : Process) (c : option string) :
  ~ In Path.root (lookup proc c)
  /\ NoDup (lookup proc c)
  /\ (forall l1 l2 x y, lookup proc c = l1 ++ x :: y :: l2 -> y = Path.dirname x)
  /\ (forall l1 l2 x y, lookup proc c = l1 ++ x :: l2 -> In y l2 ->
        List.length y < List.length x).
Proof.
  split; [apply lookup_excludes_root|]. split; [apply lookup_loop_NoDup|]. split.
  - intros l1 l2 x y H. unfold lookup in H. eapply lookup_loop_parent; exact H.
  - intros l1 l2 x y H Hy. unfold lookup in H.
    eapply lookup_loop_descending; [exact H | exact Hy].
Qed.

(** [detect] and [detectSync] read [cwd], [onUnknown] and
    [npm_config_user_agent] off the options and nothing else. *)
Lemma options_read (AGENTS : list string) (LOCKS : list (string * string))
    (proc : Process) (c : option string) (cb : OnUnknown) (ua : UserAgentOption)
    (s1 s2 : option (list DetectStrategy)) (stop1 stop2 : option StopDir) :
  detect AGENTS LOCKS proc (mkOptions c s1 cb stop1 ua)
  = detect AGENTS LOCKS proc (mkOptions c s2 cb stop2 ua)
  /\ detectSync AGENTS LOCKS proc (mkOptions c s1 cb stop1 ua)
     = detectSync AGENTS LOCKS proc (mkOptions c s2 cb stop2 ua).
Proof. split; reflexivity. Qed.

(** *** C3 *)


(** C3, the code at two inputs.  With [strategies] set to the manifest field
    alone and a directory holding a lockfile only, [detect] and [detectSync]
    still answer from the lockfile; with [strategies] set to the devEngines
    field alone and a manifest carrying [devEngines.packageManager], they
    answer [null], having read the manifest for [packageManager] only. *)
Theorem C3_strategies_not_consulted :
  result_of fs_yarn_lock
    (detect AGENTS_sample LOCKS_sample plain_process
       (options_with_strategies "/a" [packageManager_field]))
  = Some (mkResult "yarn" "yarn" Absent)
  /\ result_of fs_yarn_lock
       (detectSync AGENTS_sample LOCKS_sample plain_process
          (options_with_strategies "/a" [packageManager_field]))
     = Some (mkResult "yarn" "yarn" Absent)
  /\ result_of fs_devEngines
       (detect AGENTS_sample LOCKS_sample plain_process
          (options_with_strategies "/a" [devEngines_field]))
     = None
  /\ result_of fs_devEngines
       (detectSync AGENTS_sample LOCKS_sample plain_process
          (options_with_strategies "/a" [devEngines_field]))
     = None.
Proof. repeat split; vm_compute; reflexivity. Qed.

(** *** C4 *)


(** C4, the code at the input of the specification.  Started at /a/b/c the
    walk is /a/b/c, /a/b, /a; with [stopDir] set to the path /a, or to a
    predicate true of /a, [detect] and [detectSync] still probe /a and answer
    from its manifest. *)
Theorem C4_stopDir_not_consulted :
  lookup plain_process (Some "/a/b/c") = [["a"; "b"; "c"]; ["a"; "b"]; ["a"]]
  /\ result_of fs_manifest_above
       (detect AGENTS_sample LOCKS_sample plain_process
          (options_with_stopDir "/a/b/c" (StopPath "/a")))
     = Some (mkResult "npm" "npm" (Present "10.1.0"))
  /\ In ["a"; "package.json"]
       (accessed fs_manifest_above
          (detect AGENTS_sample LOCKS_sample plain_process
             (options_with_stopDir "/a/b/c" (StopPath "/a"))))
  /\ result_of fs_manifest_above
       (detectSync AGENTS_sample LOCKS_sample plain_process
          (options_with_stopDir "/a/b/c" (StopPredicate is_slash_a)))
     = Some (mkResult "npm" "npm" (Present "10.1.0"))
  /\ In ["a"; "package.json"]
       (accessed fs_manifest_above
          (detectSync AGENTS_sample LOCKS_sample plain_process
             (options_with_stopDir "/a/b/c" (StopPredicate is_slash_a)))).
Proof.
  split; [reflexivity|]. split; [vm_compute; reflexivity|]. split.
  - vm_compute. tauto.
  - split; [vm_compute; reflexivity | vm_compute; tauto].
Qed.

(** *** C5 *)


(** With the option set to [true] an unknown environment value ends the call
    with [null] although the walk would find a lockfile; with the option set
    to another truthy value and no environment value the walk happens. *)
Lemma C5_counterexample :
  ~ fast_path_as_stated AGENTS_sample LOCKS_sample fs_yarn_lock
      (mkProcess (Some "foo@1.0.0") Path.root)
      (options_with_user_agent "/a" UA_true)
  /\ ~ fast_path_as_stated AGENTS_sample LOCKS_sample fs_yarn_lock
         (mkProcess None Path.root)
         (options_with_user_agent "/a" UA_truthy).
Proof.
  unfold fast_path_as_stated. split; intros H.
  - assert (Hreq : npm_config_user_agent (options_with_user_agent "/a" UA_true)
                   <> UA_falsy) by discriminate.
    specialize (H Hreq). vm_compute in H. discriminate H.
  - assert (Hreq : npm_config_user_agent (options_with_user_agent "/a" UA_truthy)
                   <> UA_falsy) by discriminate.
    specialize (H Hreq). vm_compute in H. discriminate H.
Qed.

(** C5 (amended). When the option is exactly [true], [detect] returns what the
    parser makes of the environment value with the caller's callback, [null]
    included, and [null] when there is no environment value; no directory is
    visited in either case.  When the option is another truthy value, a
    non-null parse of the environment value, made without callback, is
    returned with no directory visited, and in every other case, a null parse
    or no environment value, [detect] is the walk.  [detectSync] likewise. *)
Theorem C5_fast_path (AGENTS : list string) (LOCKS : list (string * string))
    (fs : FS) (proc : Process) (options : DetectOptions) :
  npm_config_user_agent options <> UA_falsy ->
  (npm_config_user_agent options = UA_true ->
     let outcome :=
       match env_specifier proc with
       | Some userAgent => processUserAgent AGENTS userAgent (onUnknown options)
       | None => None
       end in
     run fs (detect AGENTS LOCKS proc options) = (outcome, [])
     /\ run fs (detectSync AGENTS LOCKS proc options) = (outcome, []))
  /\ (npm_config_user_agent options = UA_truthy ->
      forall userAgent r,
        env_specifier proc = Some userAgent ->
        processUserAgent AGENTS userAgent None = Some r ->
        run fs (detect AGENTS LOCKS proc options) = (Some r, [])
        /\ run fs (detectSync AGENTS LOCKS proc options) = (Some r, []))
  /\ (npm_config_user_agent options = UA_truthy ->
      (env_specifier proc = None
       \/ exists userAgent, env_specifier proc = Some userAgent
                            /\ processUserAgent AGENTS userAgent None = None) ->
      detect AGENTS LOCKS proc options
      = detect_directories AGENTS LOCKS (lookup proc (cwd options)) (onUnknown options)
      /\ detectSync AGENTS LOCKS proc options
         = detectSync_directories AGENTS LOCKS (lookup proc (cwd options))
             (onUnknown options)).
Proof.
  intros _. unfold env_specifier, detect, detectSync, user_agent_step.
  split; [|split].
  - intros ->. destruct (env_npm_config_user_agent proc) as [ua|]; simpl.
    + destruct (Str.truthy ua); split; reflexivity.
    + split; reflexivity.
  - intros -> ua r Henv Hparse.
    destruct (env_npm_config_user_agent proc) as [ua'|]; [|discriminate].
    destruct (Str.truthy ua'); [|discriminate].
    injection Henv as ->. rewrite Hparse. split; reflexivity.
  - intros -> Hcase.
    destruct (env_npm_config_user_agent proc) as [ua'|]; [|split; reflexivity].
    destruct (Str.truthy ua'); [|split; reflexivity].
    destruct Hcase as [Hnone | [ua [Hsome Hparse]]]; [discriminate|].
    injection Hsome as ->. rewrite Hparse. split; reflexivity.
Qed.

Lemma C5_witness :
  run fs_yarn_lock
    (detect AGENTS_sample LOCKS_sample (mkProcess (Some "foo@1.0.0") Path.root)
       (options_with_user_agent "/a" UA_true))
  = (None, [])
  /\ run fs_yarn_lock
       (detect AGENTS_sample LOCKS_sample (mkProcess (Some "pnpm@9.0.0") Path.root)
          (options_with_user_agent "/a" UA_truthy))
     = (Some (mkResult "pnpm" "pnpm" (Present "9.0.0")), [])
  /\ detect AGENTS_sample LOCKS_sample (mkProcess None Path.root)
       (options_with_user_agent "/a" UA_truthy)
     = detect_directories AGENTS_sample LOCKS_sample [["a"]] None.
Proof.
  split; [|split].
  - refine (proj1 (proj1 (@C5_fast_path AGENTS_sample LOCKS_sample fs_yarn_lock
                            (mkProcess (Some "foo@1.0.0") Path.root)
                            (options_with_user_agent "/a" UA_true) _) eq_refl)).
    discriminate.
  - refine (proj1 (proj1 (proj2 (@C5_fast_path AGENTS_sample LOCKS_sample fs_yarn_lock
                            (mkProcess (Some "pnpm@9.0.0") Path.root)
                            (options_with_user_agent "/a" UA_truthy) _))
                     eq_refl "pnpm@9.0.0" _ eq_refl eq_refl)).
    discriminate.
  - refine (proj1 (proj2 (proj2 (@C5_fast_path AGENTS_sample LOCKS_sample fs_yarn_lock
                            (mkProcess None Path.root)
                            (options_with_user_agent "/a" UA_truthy) _))
                     eq_refl (or_introl eq_refl))).
    discriminate.
Defined.

(* ================================================================= *)
(** ** Further properties of the specifier parser *)

Lemma split_parts_no_separator (sep : ascii) (s x : string) :
  In x (Str.split sep s) -> Str.contains sep x = false.
Proof.
  revert x. induction s as [|c rest IH]; intros x Hin.
  - destruct Hin as [<- | []]. reflexivity.
  - simpl in Hin. destruct (Ascii.eqb c sep) eqn:E.
    + destruct Hin as [<- | Hin]; [reflexivity | now apply IH].
    + destruct (Str.split sep rest) as [|part parts] eqn:Es.
      * destruct Hin as [<- | []]. unfold Str.contains. simpl.
        now rewrite Ascii.eqb_sym, E.
      * destruct Hin as [<- | Hin].
        -- unfold Str.contains. simpl. rewrite Ascii.eqb_sym, E. simpl.
           apply (IH part). now left.
        -- apply IH. now right.
Qed.

Lemma split_append_separator (sep : ascii) (a b : string) :
  Str.contains sep a = false ->
  Str.split sep (a ++ String sep b)%string = a :: Str.split sep b.
Proof.
  unfold Str.contains. induction a as [|c a IH]; simpl; intros H.
  - now rewrite Ascii.eqb_refl.
  - apply orb_false_iff in H as [Hc Ha]. rewrite Ascii.eqb_sym, Hc.
    now rewrite (IH Ha).
Qed.

Lemma strip_caret_fixed (n : string) :
  Str.strip_caret n = n ->
  match n with String "^"%char _ => False | _ => True end.
Proof.
  destruct n as [|c n']; [trivial|].
  destruct c as [[] [] [] [] [] [] [] []]; trivial.
  simpl. intros H. apply (f_equal String.length) in H. simpl in H. lia.
Qed.

(** The parser splits the specifier at every "@" and keeps the first two
    pieces: a name without "@" stands alone or is followed by its version,
    whatever follows a second "@" is dropped, and one leading caret is not part
    of the name. *)
Theorem specifier_parts_of_pieces (n v rest : string) :
  Str.contains "@"%char n = false ->
  Str.contains "@"%char v = false ->
  Str.strip_caret n = n ->
  specifier_parts n = (n, None)
  /\ specifier_parts (n ++ "@" ++ v)%string = (n, Some v)
  /\ specifier_parts (n ++ "@" ++ v ++ "@" ++ rest)%string = (n, Some v)
  /\ specifier_parts ("^" ++ n ++ "@" ++ v ++ "@" ++ rest)%string = (n, Some v).
Proof.
  intros Hn Hv Hcaret.
  assert (Hstrip : forall x, Str.strip_caret (n ++ "@" ++ x)%string
                             = (n ++ "@" ++ x)%string).
  { intros x. pose proof (@strip_caret_fixed n Hcaret) as Hc.
    destruct n as [|c n']; [reflexivity|].
    destruct c as [[] [] [] [] [] [] [] []]; try reflexivity. contradiction. }
  assert (Hone : forall x, Str.split "@"%char (n ++ "@" ++ x)%string
                           = n :: Str.split "@"%char x).
  { intros x. exact (@split_append_separator "@"%char n x Hn). }
  assert (Htwo : forall x, Str.split "@"%char (v ++ "@" ++ x)%string
                           = v :: Str.split "@"%char x).
  { intros x. exact (@split_append_separator "@"%char v x Hv). }
  split; [|split; [|split]].
  - unfold specifier_parts. rewrite Hcaret.
    now rewrite (@split_no_separator "@"%char n Hn).
  - unfold specifier_parts. rewrite Hstrip, Hone.
    now rewrite (@split_no_separator "@"%char v Hv).
  - unfold specifier_parts. rewrite Hstrip, Hone, Htwo. reflexivity.
  - unfold specifier_parts.
    change (Str.strip_caret ("^" ++ n ++ "@" ++ v ++ "@" ++ rest)%string)
      with (n ++ "@" ++ v ++ "@" ++ rest)%string.
    rewrite Hone, Htwo. reflexivity.
Qed.

Lemma specifier_parts_of_pieces_witness :
  specifier_parts "npm" = ("npm", None)
  /\ specifier_parts "npm@10.1.0" = ("npm", Some "10.1.0")
  /\ specifier_parts "npm@10.1.0@sha512.abc" = ("npm", Some "10.1.0")
  /\ specifier_parts "^npm@10.1.0@sha512.abc" = ("npm", Some "10.1.0").
Proof.
  apply (@specifier_parts_of_pieces "npm" "10.1.0" "sha512.abc");
    reflexivity.
Defined.

Lemma specifier_name_no_at (pm n : string) (ver : option string) :
  specifier_parts pm = (n, ver) -> Str.contains "@"%char n = false.
Proof.
  unfold specifier_parts. intros H.
  apply (@split_parts_no_separator "@"%char (Str.strip_caret pm)).
  destruct (Str.split "@"%char (Str.strip_caret pm)) as [|a [|b l]] eqn:E.
  - now elim (@split_nonempty "@"%char (Str.strip_caret pm)).
  - injection H as <- _. now left.
  - injection H as <- _. now left.
Qed.

(** Without a callback, whatever the parser returns is built from the
    specifier alone: its name is the name part, free of "@" and one of "yarn",
    "pnpm" or a known agent; its agent is that name, or "yarn@berry" with the
    version "berry", or "pnpm@6"; and it always carries a version property. *)
Theorem recognised_result_shape (AGENTS : list string) (pm : string)
    (r : DetectResult) :
  processUserAgent AGENTS pm None = Some r ->
  name r = fst (specifier_parts pm)
  /\ Str.contains "@"%char (name r) = false
  /\ (name r = "yarn" \/ name r = "pnpm" \/ In (name r) AGENTS)
  /\ (agent r = name r
      \/ (name r = "yarn" /\ agent r = "yarn@berry" /\ version r = Present "berry")
      \/ (name r = "pnpm" /\ agent r = "pnpm@6"))
  /\ (version r = Present "berry"
      \/ version r = optional_of (snd (specifier_parts pm)))
  /\ version r <> Absent.
Proof.
  unfold processUserAgent. destruct (Str.truthy pm); simpl negb; cbv iota;
    [|discriminate].
  destruct (specifier_parts pm) as [n ver] eqn:Hparts.
  pose proof (specifier_name_no_at _ Hparts) as Hat. simpl fst. simpl snd.
  destruct ((n =? "yarn") && Num.gt (Num.parseInt ver) 1) eqn:Eb.
  - intros [= <-]. simpl. apply andb_prop in Eb as [En _].
    apply String.eqb_eq in En. subst n.
    repeat split; try tauto; try discriminate.
  - destruct ((n =? "pnpm") && Num.lt (Num.parseInt ver) 7) eqn:El.
    + intros [= <-]. simpl. apply andb_prop in El as [En _].
      apply String.eqb_eq in En. subst n.
      repeat split; try tauto; try (destruct ver; discriminate).
    + destruct (includes AGENTS n) eqn:Ei; [|discriminate].
      intros [= <-]. simpl. apply includes_In in Ei.
      repeat split; try tauto; try (destruct ver; discriminate).
Qed.

Lemma recognised_result_shape_witness :
  name (mkResult "pnpm" "pnpm@6" (Present "6.14.0"))
  = fst (specifier_parts "pnpm@6.14.0")
  /\ Str.contains "@"%char (name (mkResult "pnpm" "pnpm@6" (Present "6.14.0"))) = false.
Proof.
  pose proof (@recognised_result_shape AGENTS_sample "pnpm@6.14.0"
                (mkResult "pnpm" "pnpm@6" (Present "6.14.0")) eq_refl) as H.
  exact (conj (proj1 H) (proj1 (proj2 H))).
Defined.

(** A callback never changes the outcome for a specifier that the parser
    resolves by itself. *)
Theorem recognised_ignores_callback (AGENTS : list string) (pm : string)
    (r : DetectResult) (cb : OnUnknown) :
  processUserAgent AGENTS pm None = Some r ->
  processUserAgent AGENTS pm cb = Some r.
Proof.
  unfold processUserAgent. destruct (Str.truthy pm); simpl negb; cbv iota;
    [|discriminate].
  destruct (specifier_parts pm) as [n ver].
  destruct ((n =? "yarn") && Num.gt (Num.parseInt ver) 1); [trivial|].
  destruct ((n =? "pnpm") && Num.lt (Num.parseInt ver) 7); [trivial|].
  destruct (includes AGENTS n); [trivial | discriminate].
Qed.

Lemma recognised_ignores_callback_witness :
  processUserAgent AGENTS_sample "bun@1.1.0" (Some (fun _ => Some npm_result))
  = Some (mkResult "bun" "bun" (Present "1.1.0")).
Proof.
  apply (@recognised_ignores_callback AGENTS_sample "bun@1.1.0"
           (mkResult "bun" "bun" (Present "1.1.0"))
           (Some (fun _ => Some npm_result))).
  reflexivity.
Defined.

(** The berry threshold is strict: a "yarn" specifier whose version reads as
    1 or less, or does not read as a number, is classic yarn, "yarn" being a
    known agent, and keeps its version. *)
Theorem yarn_classic (AGENTS : list string) (pm : string) (cb : OnUnknown)
    (ver : option string) :
  In "yarn" AGENTS ->
  specifier_parts pm = ("yarn", ver) ->
  (Num.parseInt ver = None \/ exists n, Num.parseInt ver = Some n /\ (n <= 1)%Z) ->
  processUserAgent AGENTS pm cb = Some (mkResult "yarn" "yarn" (optional_of ver)).
Proof.
  intros Hin Hparts Hver.
  assert (Hgt : Num.gt (Num.parseInt ver) 1 = false).
  { destruct Hver as [-> | [n [-> Hn]]]; [reflexivity|]. simpl.
    now apply Z.ltb_ge. }
  apply rule_known; try assumption.
  - apply (parts_name_nonempty _ Hparts). discriminate.
  - reflexivity.
Qed.

Lemma yarn_classic_witness :
  processUserAgent AGENTS_sample "yarn@1.22.19" None
  = Some (mkResult "yarn" "yarn" (Present "1.22.19"))
  /\ processUserAgent AGENTS_sample "yarn" None
     = Some (mkResult "yarn" "yarn" Undefined).
Proof.
  split.
  - apply (@yarn_classic AGENTS_sample "yarn@1.22.19" None (Some "1.22.19"));
      [simpl; tauto | reflexivity | right; exists 1%Z; split; [reflexivity | lia]].
  - apply (@yarn_classic AGENTS_sample "yarn" None None);
      [simpl; tauto | reflexivity | left; reflexivity].
Defined.

(** The legacy threshold is strict: a "pnpm" specifier whose version reads as
    7 or more is plain pnpm, "pnpm" being a known agent, and keeps its
    version. *)
Theorem pnpm_current (AGENTS : list string) (pm : string) (cb : OnUnknown)
    (ver : option string) (n : Z) :
  In "pnpm" AGENTS ->
  specifier_parts pm = ("pnpm", ver) ->
  Num.parseInt ver = Some n -> (7 <= n)%Z ->
  processUserAgent AGENTS pm cb = Some (mkResult "pnpm" "pnpm" (optional_of ver)).
Proof.
  intros Hin Hparts Hint Hn.
  apply rule_known; try assumption.
  - apply (parts_name_nonempty _ Hparts). discriminate.
  - reflexivity.
  - rewrite Hint. simpl. now apply Z.ltb_ge.
Qed.

Lemma pnpm_current_witness :
  processUserAgent AGENTS_sample "pnpm@7.0.0" None
  = Some (mkResult "pnpm" "pnpm" (Present "7.0.0")).
Proof.
  apply (@pnpm_current AGENTS_sample "pnpm@7.0.0" None (Some "7.0.0") 7);
    [simpl; tauto | reflexivity | reflexivity | lia].
Defined.

(* ================================================================= *)
(** ** Further properties of the walker *)

Lemma lookup_loop_ancestors (n : nat) (d : path) :
  List.length d = n -> lookup_loop (S n) d = ancestors d.
Proof.
  revert d. induction n as [|n IH]; intros d Hlen.
  - destruct d; [reflexivity | discriminate].
  - assert (Hd : d <> []) by (intros ->; discriminate).
    rewrite lookup_loop_unfold by assumption.
    pose proof (dirname_shorter Hd) as Hshort.
    rewrite IH by lia. unfold ancestors. rewrite Hlen.
    assert (Hparent : List.length (Path.dirname d) = n) by lia.
    rewrite Hparent, seq_S, rev_app_distr. cbn [rev app map Nat.add].
    f_equal.
    + rewrite <- Hlen. symmetry. apply firstn_all.
    + apply map_ext_in. intros k Hk. apply in_rev, in_seq in Hk.
      unfold Path.dirname. rewrite removelast_firstn_len, firstn_firstn.
      f_equal. lia.
Qed.

(** The walk of [lookup] is exactly the chain of prefixes of the resolved
    starting directory, the root left out, nearest first: a directory is
    visited if and only if it is the starting directory or one of its
    ancestors below the root. *)
Theorem lookup_is_ancestors (proc : Process) (c : option string) :
  lookup proc c = ancestors (start_directory proc c)
  /\ forall x, In x (lookup proc c) <->
               x <> [] /\ exists rest, start_directory proc c = x ++ rest.
Proof.
  assert (Heq : lookup proc c = ancestors (start_directory proc c)).
  { unfold lookup. now apply lookup_loop_ancestors. }
  split; [exact Heq|]. intros x. rewrite Heq. unfold ancestors.
  set (d := start_directory proc c). rewrite in_map_iff. split.
  - intros [k [<- Hk]]. apply in_rev, in_seq in Hk. split.
    + intros Hnil. apply (f_equal (@List.length string)) in Hnil.
      rewrite length_firstn in Hnil. simpl in Hnil. lia.
    + exists (skipn k d). symmetry. apply firstn_skipn.
  - intros [Hx [rest Hd]]. exists (List.length x). split.
    + rewrite Hd, firstn_app, firstn_all, Nat.sub_diag. simpl.
      apply app_nil_r.
    + apply in_rev. rewrite rev_involutive. apply in_seq.
      rewrite Hd, length_app. destruct x; [now elim Hx | simpl; lia].
Qed.

(* ================================================================= *)
(** ** Further properties of the resolver *)

Section ResolverMore.

Variable AGENTS : list string.
Variable LOCKS : list (string * string).
Variable fs : FS.

Lemma log_of_parsePackageJson (p : path) (cb : OnUnknown) :
  log_of fs (parsePackageJson AGENTS p cb)
  = EvStat true p :: (if is_file fs p then [EvRead p] else []).
Proof.
  unfold parsePackageJson.
  rewrite log_of_bind, log_of_fileExists, result_of_fileExists.
  destruct (is_file fs p); simpl.
  - now rewrite log_of_handlePackageManager.
  - reflexivity.
Qed.

Lemma log_of_Ret {A : Type} (a : A) : log_of fs (Ret a) = [].
Proof. reflexivity. Qed.

(** The lockfile loop, as a function of the state. *)
Lemma result_of_locks (d : path) (cb : OnUnknown) (locks : list (string * string)) :
  result_of fs (detect_locks AGENTS d cb locks)
  = match first_lock fs d locks with
    | Some (_, A) =>
        Some match manifest_result AGENTS fs (Path.join d "package.json") cb with
             | Some r => r
             | None => mkResult A A Absent
             end
    | None => None
    end.
Proof.
  unfold first_lock. induction locks as [|[L A] locks IH]; [reflexivity|].
  cbn [detect_locks find fst]. rewrite result_of_bind, result_of_fileExists.
  destruct (is_file fs (Path.join d L)); [|exact IH].
  rewrite result_of_bind, result_of_parsePackageJson.
  destruct (manifest_result AGENTS fs (Path.join d "package.json") cb); reflexivity.
Qed.

Lemma result_of_directory (d : path) (cb : OnUnknown) :
  result_of fs (detect_directory AGENTS LOCKS d cb)
  = directory_outcome AGENTS LOCKS fs d cb.
Proof.
  unfold detect_directory, directory_outcome.
  rewrite result_of_bind, result_of_locks.
  destruct (first_lock fs d LOCKS) as [[L A]|]; [reflexivity|].
  apply result_of_parsePackageJson.
Qed.

Lemma result_of_directories (ds : list path) (cb : OnUnknown) :
  result_of fs (detect_directories AGENTS LOCKS ds cb)
  = first_some (fun d => directory_outcome AGENTS LOCKS fs d cb) ds.
Proof.
  induction ds as [|d ds IH]; [reflexivity|].
  cbn [detect_directories first_some].
  rewrite result_of_bind, result_of_directory.
  destruct (directory_outcome AGENTS LOCKS fs d cb); [reflexivity | exact IH].
Qed.

Lemma first_some_In {A B : Type} (f : A -> option B) (l : list A) (b : B) :
  first_some f l = Some b -> exists x, In x l /\ f x = Some b.
Proof.
  induction l as [|x l IH]; [discriminate|]. simpl.
  destruct (f x) as [b'|] eqn:E.
  - intros [= <-]. exists x. split; [now left | assumption].
  - intros H. destruct (IH H) as [y [Hy Hf]]. exists y. split; [now right | assumption].
Qed.

(** *** Number of calls *)




End ResolverMore.

Section ResolverLogs.

Variable AGENTS : list string.
Variable LOCKS : list (string * string).
Variable fs : FS.

(** *** The blocking variant mirrors the other *)

Lemma mirrors_refl_blocking {A : Type} (m : Prog A) :
  map blocking (log_of fs m) = log_of fs m -> mirrors fs m m.
Proof. intros H. split; [reflexivity | now rewrite H]. Qed.

Lemma mirrors_bind {A B : Type} (m1 m2 : Prog A) (f1 f2 : A -> Prog B) :
  mirrors fs m1 m2 -> (forall a, mirrors fs (f1 a) (f2 a)) ->
  mirrors fs (bind m1 f1) (bind m2 f2).
Proof.
  intros [Hres Hlog] Hf. split.
  - rewrite !result_of_bind, Hres. apply Hf.
  - rewrite !log_of_bind, map_app, Hlog, <- Hres. f_equal. apply Hf.
Qed.

Lemma mirrors_fileExists (p : path) : mirrors fs (fileExists p) (fileExistsSync p).
Proof.
  split.
  - now rewrite result_of_fileExists, result_of_fileExistsSync.
  - now rewrite log_of_fileExists, log_of_fileExistsSync.
Qed.

Lemma mirrors_handle (p : path) (cb : OnUnknown) :
  mirrors fs (handlePackageManager AGENTS p cb) (handlePackageManager AGENTS p cb).
Proof.
  apply mirrors_refl_blocking. now rewrite log_of_handlePackageManager.
Qed.

Lemma mirrors_Ret {A : Type} (a : A) : mirrors fs (Ret a) (Ret a).
Proof. split; reflexivity. Qed.

Lemma mirrors_parsePackageJson (p : path) (cb : OnUnknown) :
  mirrors fs (parsePackageJson AGENTS p cb) (parsePackageJsonSync AGENTS p cb).
Proof.
  unfold parsePackageJson, parsePackageJsonSync.
  apply mirrors_bind; [apply mirrors_fileExists|].
  intros [|]; [apply mirrors_handle | apply mirrors_Ret].
Qed.

Lemma mirrors_locks (d : path) (cb : OnUnknown) (locks : list (string * string)) :
  mirrors fs (detect_locks AGENTS d cb locks) (detectSync_locks AGENTS d cb locks).
Proof.
  induction locks as [|[L A] locks IH]; [apply mirrors_Ret|].
  cbn [detect_locks detectSync_locks].
  apply mirrors_bind; [apply mirrors_fileExists|].
  intros [|]; [|exact IH].
  apply mirrors_bind; [apply mirrors_parsePackageJson|].
  intros [r|]; apply mirrors_Ret.
Qed.

Lemma mirrors_directory (d : path) (cb : OnUnknown) :
  mirrors fs (detect_directory AGENTS LOCKS d cb)
             (detectSync_directory AGENTS LOCKS d cb).
Proof.
  unfold detect_directory, detectSync_directory.
  apply mirrors_bind; [apply mirrors_locks|].
  intros [r|]; [apply mirrors_Ret | apply mirrors_parsePackageJson].
Qed.

Lemma mirrors_directories (ds : list path) (cb : OnUnknown) :
  mirrors fs (detect_directories AGENTS LOCKS ds cb)
             (detectSync_directories AGENTS LOCKS ds cb).
Proof.
  induction ds as [|d ds IH]; [apply mirrors_Ret|].
  cbn [detect_directories detectSync_directories].
  apply mirrors_bind; [apply mirrors_directory|].
  intros [r|]; [apply mirrors_Ret | exact IH].
Qed.

Lemma mirrors_detect (proc : Process) (options : DetectOptions) :
  mirrors fs (detect AGENTS LOCKS proc options)
             (detectSync AGENTS LOCKS proc options).
Proof.
  unfold detect, detectSync.
  destruct (user_agent_step AGENTS proc options);
    [apply mirrors_Ret | apply mirrors_directories].
Qed.

(** *** What is in the log of the variant that suspends *)

Lemma Forall_log_bind {A B : Type} (P : Event -> Prop) (m : Prog A)
    (f : A -> Prog B) :
  Forall P (log_of fs m) -> (forall a, Forall P (log_of fs (f a))) ->
  Forall P (log_of fs (bind m f)).
Proof.
  intros Hm Hf. rewrite log_of_bind. apply Forall_app. split; [assumption | apply Hf].
Qed.

Lemma calls_parsePackageJson (d : path) (cb : OnUnknown) :
  Forall (call_of_directory LOCKS fs d)
    (log_of fs (parsePackageJson AGENTS (Path.join d "package.json") cb)).
Proof.
  rewrite log_of_parsePackageJson. constructor.
  - split; [reflexivity|]. exists "package.json". split; [now right | reflexivity].
  - destruct (is_file fs (Path.join d "package.json")) eqn:E; constructor.
    + split; [reflexivity | exact E].
    + constructor.
Qed.

Lemma calls_locks (d : path) (cb : OnUnknown) (locks : list (string * string)) :
  incl locks LOCKS ->
  Forall (call_of_directory LOCKS fs d) (log_of fs (detect_locks AGENTS d cb locks)).
Proof.
  induction locks as [|[L A] locks IH]; intros Hincl; [constructor|].
  cbn [detect_locks]. apply Forall_log_bind.
  - rewrite log_of_fileExists. constructor; [|constructor].
    split; [reflexivity|]. exists L. split; [|reflexivity]. left.
    apply (in_map fst LOCKS (L, A)). apply Hincl. now left.
  - intros [|].
    + apply Forall_log_bind; [apply calls_parsePackageJson|].
      intros [r|]; constructor.
    + apply IH. intros x Hx. apply Hincl. now right.
Qed.

Lemma calls_directory (d : path) (cb : OnUnknown) :
  Forall (call_of_directory LOCKS fs d) (log_of fs (detect_directory AGENTS LOCKS d cb)).
Proof.
  unfold detect_directory. apply Forall_log_bind.
  - apply calls_locks. apply incl_refl.
  - intros [r|]; [constructor | apply calls_parsePackageJson].
Qed.

Lemma calls_directories (ds : list path) (cb : OnUnknown) :
  Forall (fun e => exists d, In d ds /\ call_of_directory LOCKS fs d e)
    (log_of fs (detect_directories AGENTS LOCKS ds cb)).
Proof.
  induction ds as [|d ds IH]; [constructor|].
  cbn [detect_directories]. apply Forall_log_bind.
  - eapply Forall_impl; [|apply calls_directory].
    intros e He. exists d. split; [now left | assumption].
  - intros [r|]; [constructor|].
    eapply Forall_impl; [|exact IH].
    intros e [d' [Hd' He]]. exists d'. split; [now right | assumption].
Qed.

(** *** When nothing is there *)

Lemma run_locks_nothing (d : path) (cb : OnUnknown) (locks : list (string * string)) :
  (forall f, In f (map fst locks) -> is_file fs (Path.join d f) = false) ->
  run fs (detect_locks AGENTS d cb locks)
  = (None, map (fun f => EvStat true (Path.join d f)) (map fst locks)).
Proof.
  induction locks as [|[L A] locks IH]; intros Hnone; [reflexivity|].
  rewrite run_pair. cbn [detect_locks].
  rewrite result_of_bind, log_of_bind, result_of_fileExists, log_of_fileExists.
  rewrite (Hnone L) by (now left).
  assert (Hrest : forall f, In f (map fst locks) -> is_file fs (Path.join d f) = false).
  { intros f Hf. apply Hnone. now right. }
  specialize (IH Hrest). rewrite run_pair in IH. injection IH as -> ->.
  reflexivity.
Qed.

Lemma run_directory_nothing (d : path) (cb : OnUnknown) :
  (forall f, In f (map fst LOCKS) \/ f = "package.json" ->
             is_file fs (Path.join d f) = false) ->
  run fs (detect_directory AGENTS LOCKS d cb) = (None, probes LOCKS d).
Proof.
  intros Hnone. rewrite run_pair. unfold detect_directory, probes.
  assert (Hlocks := @run_locks_nothing d cb LOCKS (fun f Hf => Hnone f (or_introl Hf))).
  rewrite run_pair in Hlocks. injection Hlocks as Hres Hlog.
  rewrite result_of_bind, log_of_bind, Hres, Hlog.
  rewrite result_of_parsePackageJson, log_of_parsePackageJson.
  unfold manifest_result, packageManager_at.
  rewrite (Hnone "package.json") by (now right).
  now rewrite map_app.
Qed.

Lemma run_directories_nothing (ds : list path) (cb : OnUnknown) :
  (forall d f, In d ds -> In f (map fst LOCKS) \/ f = "package.json" ->
               is_file fs (Path.join d f) = false) ->
  run fs (detect_directories AGENTS LOCKS ds cb) = (None, flat_map (probes LOCKS) ds).
Proof.
  induction ds as [|d ds IH]; intros Hnone; [reflexivity|].
  rewrite run_pair. cbn [detect_directories flat_map].
  assert (Hd := @run_directory_nothing d cb (fun f Hf => Hnone d f (or_introl eq_refl) Hf)).
  rewrite run_pair in Hd. injection Hd as Hres Hlog.
  rewrite result_of_bind, log_of_bind, Hres, Hlog.
  assert (Hrest := IH (fun d' f Hd' Hf => Hnone d' f (or_intror Hd') Hf)).
  rewrite run_pair in Hrest. injection Hrest as -> ->. reflexivity.
Qed.

(** *** Only what was called matters *)

Lemma run_frame {A : Type} (fs2 : FS) (m : Prog A) :
  (forall q, In q (accessed fs m) -> fs q = fs2 q) -> run fs2 m = run fs m.
Proof.
  unfold accessed, log_of.
  induction m as [a | p k IH | p k IH | p k IH]; intros Hsame; [reflexivity | | |].
  - simpl in *.
    assert (Hp : fs p = fs2 p).
    { apply Hsame. destruct (run fs (k (fs_stat fs p))). now left. }
    assert (Hstat : fs_stat fs2 p = fs_stat fs p) by (unfold fs_stat; now rewrite Hp).
    rewrite Hstat, IH; [reflexivity|].
    intros q Hq. apply Hsame. destruct (run fs (k (fs_stat fs p))). now right.
  - simpl in *.
    assert (Hp : fs p = fs2 p).
    { apply Hsame. destruct (run fs (k (fs_stat fs p))). now left. }
    assert (Hstat : fs_stat fs2 p = fs_stat fs p) by (unfold fs_stat; now rewrite Hp).
    rewrite Hstat, IH; [reflexivity|].
    intros q Hq. apply Hsame. destruct (run fs (k (fs_stat fs p))). now right.
  - simpl in *.
    assert (Hp : fs p = fs2 p).
    { apply Hsame. destruct (run fs (k (fs_read_json fs p))). now left. }
    assert (Hread : fs_read_json fs2 p = fs_read_json fs p)
      by (unfold fs_read_json; now rewrite Hp).
    rewrite Hread, IH; [reflexivity|].
    intros q Hq. apply Hsame. destruct (run fs (k (fs_read_json fs p))). now right.
Qed.

End ResolverLogs.

(** *** The result as a function of the filesystem state *)

Lemma detect_outcome_eq (AGENTS : list string) (LOCKS : list (string * string))
    (fs : FS) (proc : Process) (options : DetectOptions) :
  result_of fs (detect AGENTS LOCKS proc options)
  = detect_outcome AGENTS LOCKS fs proc options.
Proof.
  unfold detect, detect_outcome.
  destruct (user_agent_step AGENTS proc options); [reflexivity|].
  apply result_of_directories.
Qed.

Lemma detect_calls (AGENTS : list string) (LOCKS : list (string * string))
    (fs : FS) (proc : Process) (options : DetectOptions) :
  Forall (fun e => exists d, In d (lookup proc (cwd options))
                             /\ call_of_directory LOCKS fs d e)
    (log_of fs (detect AGENTS LOCKS proc options)).
Proof.
  unfold detect. destruct (user_agent_step AGENTS proc options); [constructor|].
  apply calls_directories.
Qed.

(** The value [detect] and [detectSync] return is the one computed without any
    filesystem call from the state: the outcome of the first statement if it
    returns, else that of the first directory of the walk which yields one,
    a directory with a lockfile yielding its manifest's result or else the
    name of the first lockfile of the table found there, and a directory
    without lockfile yielding its manifest's result. *)
Theorem detect_result_is_outcome (AGENTS : list string)
    (LOCKS : list (string * string)) (fs : FS) (proc : Process)
    (options : DetectOptions) :
  result_of fs (detect AGENTS LOCKS proc options)
  = detect_outcome AGENTS LOCKS fs proc options
  /\ result_of fs (detectSync AGENTS LOCKS proc options)
     = detect_outcome AGENTS LOCKS fs proc options.
Proof.
  pose proof (detect_outcome_eq AGENTS LOCKS fs proc options) as H.
  split; [exact H|]. rewrite <- H. symmetry. apply agree_detect.
Qed.

(** Whatever the walk returns comes from a visited directory: it is the bare
    name of a table entry whose lockfile is a file there, or it is what the
    parser makes of the [packageManager] string of that directory's
    package.json. *)
Theorem detect_result_provenance (AGENTS : list string)
    (LOCKS : list (string * string)) (fs : FS) (proc : Process)
    (options : DetectOptions) (r : DetectResult) :
  user_agent_step AGENTS proc options = None ->
  result_of fs (detect AGENTS LOCKS proc options) = Some r ->
  exists d, In d (lookup proc (cwd options))
    /\ ((exists L A, In (L, A) LOCKS
                     /\ is_file fs (Path.join d L) = true
                     /\ r = mkResult A A Absent)
        \/ (exists pm, packageManager_at fs (Path.join d "package.json") = Some pm
                       /\ processUserAgent AGENTS pm (onUnknown options) = Some r)).
Proof.
  intros Hstep Hres.
  rewrite (detect_outcome_eq AGENTS LOCKS fs proc options) in Hres.
  unfold detect_outcome in Hres. rewrite Hstep in Hres.
  apply first_some_In in Hres as [d [Hd Hout]]. exists d. split; [exact Hd|].
  unfold directory_outcome in Hout.
  assert (Hmanifest : forall r',
            manifest_result AGENTS fs (Path.join d "package.json") (onUnknown options)
            = Some r' ->
            exists pm, packageManager_at fs (Path.join d "package.json") = Some pm
                       /\ processUserAgent AGENTS pm (onUnknown options) = Some r').
  { unfold manifest_result. intros r' H.
    destruct (packageManager_at fs (Path.join d "package.json")) as [pm|];
      [|discriminate].
    exists pm. split; [reflexivity | exact H]. }
  destruct (first_lock fs d LOCKS) as [[L A]|] eqn:Elock.
  - unfold first_lock in Elock. apply find_some in Elock as [Hin Hfile].
    simpl in Hfile. injection Hout as Hout.
    destruct (manifest_result AGENTS fs (Path.join d "package.json")
                (onUnknown options)) as [r'|] eqn:Em.
    + right. subst r'. now apply Hmanifest.
    + left. exists L, A. repeat split; [exact Hin | exact Hfile | now symmetry].
  - right. now apply Hmanifest.
Qed.

Lemma detect_result_provenance_witness :
  exists d, In d (lookup plain_process (cwd (options_at "/a/b/c")))
    /\ ((exists L A, In (L, A) LOCKS_sample
                     /\ is_file fs_nested (Path.join d L) = true
                     /\ mkResult "yarn" "yarn" Absent = mkResult A A Absent)
        \/ (exists pm,
              packageManager_at fs_nested (Path.join d "package.json") = Some pm
              /\ processUserAgent AGENTS_sample pm (onUnknown (options_at "/a/b/c"))
                 = Some (mkResult "yarn" "yarn" Absent))).
Proof.
  apply (@detect_result_provenance AGENTS_sample LOCKS_sample fs_nested
           plain_process (options_at "/a/b/c") (mkResult "yarn" "yarn" Absent));
    reflexivity.
Defined.

(** *** The calls made *)

(** Every call of [detect] belongs to a directory of the walk: it is an
    awaited [stat] of a lockfile name or of package.json in that directory,
    or a read of that directory's package.json, which [stat] has shown to be
    a file.  No lockfile is ever read and nothing outside the table and
    package.json is looked at. *)
Theorem detect_calls_by_directory (AGENTS : list string)
    (LOCKS : list (string * string)) (fs : FS) (proc : Process)
    (options : DetectOptions) :
  Forall (fun e => exists d, In d (lookup proc (cwd options))
                             /\ call_of_directory LOCKS fs d e)
    (log_of fs (detect AGENTS LOCKS proc options)).
Proof. apply detect_calls. Qed.

(** [detectSync] makes the calls of [detect] one for one, each [stat]
    blocking, so that none of its calls suspends; the manifest is read with
    the same blocking read in both. *)
Theorem detectSync_mirrors_detect (AGENTS : list string)
    (LOCKS : list (string * string)) (fs : FS) (proc : Process)
    (options : DetectOptions) :
  log_of fs (detectSync AGENTS LOCKS proc options)
  = map blocking (log_of fs (detect AGENTS LOCKS proc options))
  /\ forallb (fun e => negb (suspends e))
       (log_of fs (detectSync AGENTS LOCKS proc options)) = true
  /\ forallb (fun e => negb (blocking_stat e))
       (log_of fs (detect AGENTS LOCKS proc options)) = true.
Proof.
  destruct (mirrors_detect AGENTS LOCKS fs proc options) as [_ Hlog].
  split; [exact Hlog|]. split.
  - rewrite Hlog. apply forallb_forall. intros e He.
    apply in_map_iff in He as [e' [<- _]]. now destruct e'.
  - apply forallb_forall. intros e He.
    pose proof (detect_calls AGENTS LOCKS fs proc options) as Hall.
    rewrite Forall_forall in Hall. destruct (Hall e He) as [d [_ Hcall]].
    destruct e as [s p | p]; [|reflexivity].
    destruct Hcall as [-> _]. reflexivity.
Qed.


(** When no directory of the walk holds a file under a lockfile name of the
    table or under package.json, [detect] returns [null] after exactly one
    [stat] per lockfile name, in table order, and then one of package.json,
    in each directory, nearest first, and no read. *)
Theorem detect_nothing_found (AGENTS : list string) (LOCKS : list (string * string))
    (fs : FS) (proc : Process) (options : DetectOptions) :
  user_agent_step AGENTS proc options = None ->
  (forall d f, In d (lookup proc (cwd options)) ->
               In f (map fst LOCKS) \/ f = "package.json" ->
               is_file fs (Path.join d f) = false) ->
  run fs (detect AGENTS LOCKS proc options)
  = (None, flat_map (probes LOCKS) (lookup proc (cwd options)))
  /\ run fs (detectSync AGENTS LOCKS proc options)
     = (None, map blocking (flat_map (probes LOCKS) (lookup proc (cwd options)))).
Proof.
  intros Hstep Hnone.
  assert (H : run fs (detect AGENTS LOCKS proc options)
              = (None, flat_map (probes LOCKS) (lookup proc (cwd options)))).
  { unfold detect. rewrite Hstep. now apply run_directories_nothing. }
  split; [exact H|].
  destruct (mirrors_detect AGENTS LOCKS fs proc options) as [Hres Hlog].
  rewrite run_pair in H. injection H as Hr Hl.
  rewrite run_pair, Hlog, <- Hres, Hr, Hl. reflexivity.
Qed.

Lemma detect_nothing_found_witness :
  run fs_empty (detect AGENTS_sample LOCKS_sample plain_process (options_at "/a/b"))
  = (None, flat_map (probes LOCKS_sample)
             (lookup plain_process (cwd (options_at "/a/b")))).
Proof.
  refine (proj1 (@detect_nothing_found AGENTS_sample LOCKS_sample fs_empty
                   plain_process (options_at "/a/b") eq_refl _)).
  intros d f _ _. reflexivity.
Defined.

(** Started in the filesystem root, with the first statement not returning,
    [detect] and [detectSync] return [null] without a single filesystem call,
    whatever the root holds. *)
Theorem detect_at_root (AGENTS : list string) (LOCKS : list (string * string))
    (fs : FS) (proc : Process) (options : DetectOptions) :
  user_agent_step AGENTS proc options = None ->
  start_directory proc (cwd options) = Path.root ->
  run fs (detect AGENTS LOCKS proc options) = (None, [])
  /\ run fs (detectSync AGENTS LOCKS proc options) = (None, []).
Proof.
  intros Hstep Hroot. unfold detect, detectSync. rewrite Hstep.
  assert (Hwalk : lookup proc (cwd options) = []).
  { unfold lookup. fold (start_directory proc (cwd options)). now rewrite Hroot. }
  rewrite Hwalk. split; reflexivity.
Qed.

Lemma detect_at_root_witness :
  run fs_root_signals (detect AGENTS_sample LOCKS_sample plain_process (options_at "/"))
  = (None, [])
  /\ run fs_root_signals
       (detectSync AGENTS_sample LOCKS_sample plain_process (options_at "/a/.."))
     = (None, []).
Proof.
  split.
  - refine (proj1 (@detect_at_root AGENTS_sample LOCKS_sample fs_root_signals
                     plain_process (options_at "/") eq_refl eq_refl)).
  - refine (proj2 (@detect_at_root AGENTS_sample LOCKS_sample fs_root_signals
                     plain_process (options_at "/a/..") eq_refl eq_refl)).
Defined.

(** *** What lies above the deciding directory *)

Lemma accessed_within_walk (AGENTS : list string) (LOCKS : list (string * string))
    (fs : FS) (proc : Process) (options : DetectOptions)
    (before after : list path) (d : path) (r : DetectResult) :
  forallb Path.plain (map fst LOCKS) = true ->
  user_agent_step AGENTS proc options = None ->
  lookup proc (cwd options) = before ++ d :: after ->
  (forall d', In d' before ->
     result_of fs (detect_directory AGENTS LOCKS d' (onUnknown options)) = None) ->
  result_of fs (detect_directory AGENTS LOCKS d (onUnknown options)) = Some r ->
  result_of fs (detect AGENTS LOCKS proc options) = Some r
  /\ forall q, In q (accessed fs (detect AGENTS LOCKS proc options)) ->
               In (Path.dirname q) (before ++ [d]).
Proof.
  intros Hplain Hstep Hwalk Hbefore Hd.
  destruct (@directories_first_hit AGENTS LOCKS fs before after d r
              (onUnknown options) Hbefore Hd) as [Hr Hlog].
  assert (Hdetect : detect AGENTS LOCKS proc options
                    = detect_directories AGENTS LOCKS (before ++ d :: after)
                        (onUnknown options)).
  { unfold detect. now rewrite Hstep, Hwalk. }
  split; [now rewrite Hdetect|].
  intros q Hq. unfold accessed in Hq. rewrite Hdetect, Hlog in Hq.
  apply in_map_iff in Hq as [e [<- He]].
  apply in_flat_map in He as [d' [Hd' He]].
  pose proof (calls_directory AGENTS LOCKS fs d' (onUnknown options)) as Hcalls.
  rewrite Forall_forall in Hcalls. specialize (Hcalls e He).
  assert (Hname : exists f, Path.plain f = true /\ event_path e = Path.join d' f).
  { rewrite forallb_forall in Hplain.
    destruct e as [s p | p]; simpl in *.
    - destruct Hcalls as [_ [f [[Hf | ->] ->]]].
      + exists f. split; [now apply Hplain | reflexivity].
      + exists "package.json". split; reflexivity.
    - destruct Hcalls as [-> _]. exists "package.json". split; reflexivity. }
  destruct Hname as [f [Hf ->]]. now rewrite (dirname_join_plain d' f Hf).
Qed.

(** The outcome rests on the directories up to the deciding one only: if a
    directory of the walk yields a result and none before it does, then in
    any other filesystem state that holds the same entries in those
    directories, whatever it holds elsewhere, [detect] and [detectSync] make
    the same calls and return the same result.  Lockfile names are plain
    file names. *)
Theorem detect_unaffected_above (AGENTS : list string)
    (LOCKS : list (string * string)) (fs1 fs2 : FS) (proc : Process)
    (options : DetectOptions) (before after : list path) (d : path)
    (r : DetectResult) :
  forallb Path.plain (map fst LOCKS) = true ->
  user_agent_step AGENTS proc options = None ->
  lookup proc (cwd options) = before ++ d :: after ->
  (forall d', In d' before ->
     result_of fs1 (detect_directory AGENTS LOCKS d' (onUnknown options)) = None) ->
  result_of fs1 (detect_directory AGENTS LOCKS d (onUnknown options)) = Some r ->
  same_entries (before ++ [d]) fs1 fs2 ->
  run fs2 (detect AGENTS LOCKS proc options)
  = run fs1 (detect AGENTS LOCKS proc options)
  /\ run fs2 (detectSync AGENTS LOCKS proc options)
     = run fs1 (detectSync AGENTS LOCKS proc options)
  /\ result_of fs2 (detect AGENTS LOCKS proc options) = Some r.
Proof.
  intros Hplain Hstep Hwalk Hbefore Hd Hsame.
  destruct (@accessed_within_walk AGENTS LOCKS fs1 proc options before after d r
              Hplain Hstep Hwalk Hbefore Hd) as [Hr Hacc].
  assert (H1 : run fs2 (detect AGENTS LOCKS proc options)
               = run fs1 (detect AGENTS LOCKS proc options)).
  { apply run_frame. intros q Hq. apply Hsame. now apply Hacc. }
  split; [exact H1|]. split.
  - apply run_frame. intros q Hq. apply Hsame. apply Hacc.
    destruct (agree_detect AGENTS LOCKS fs1 proc options) as [_ Heq].
    unfold accessed in *. now rewrite Heq.
  - unfold result_of. rewrite H1. exact Hr.
Qed.

Lemma entry_of_directory (q d : path) :
  Path.dirname q = d -> d <> [] -> exists x, q = d ++ [x].
Proof.
  unfold Path.dirname. intros Hq Hd.
  destruct q as [|y q'] using rev_ind; [now elim Hd|].
  rewrite removelast_last in Hq. subst. now exists y.
Qed.

(** The states [fs_nested] and [fs_nested_other] hold the same in /a/b/c and
    /a/b and differ in /a, which decides nothing when the walk starts in
    /a/b/c. *)
Lemma detect_unaffected_above_witness :
  run fs_nested_other
    (detect AGENTS_sample LOCKS_sample plain_process (options_at "/a/b/c"))
  = run fs_nested
      (detect AGENTS_sample LOCKS_sample plain_process (options_at "/a/b/c"))
  /\ run fs_nested_other
       (detectSync AGENTS_sample LOCKS_sample plain_process (options_at "/a/b/c"))
     = run fs_nested
         (detectSync AGENTS_sample LOCKS_sample plain_process (options_at "/a/b/c"))
  /\ result_of fs_nested_other
       (detect AGENTS_sample LOCKS_sample plain_process (options_at "/a/b/c"))
     = Some (mkResult "yarn" "yarn" Absent).
Proof.
  apply (@detect_unaffected_above AGENTS_sample LOCKS_sample fs_nested
           fs_nested_other plain_process (options_at "/a/b/c")
           [["a"; "b"; "c"]] [["a"]] ["a"; "b"] (mkResult "yarn" "yarn" Absent)).
  - reflexivity.
  - reflexivity.
  - reflexivity.
  - intros d' [<- | []]. reflexivity.
  - reflexivity.
  - intros q [Hq | [Hq | []]]; symmetry in Hq;
      apply entry_of_directory in Hq as [x ->]; try discriminate.
    + reflexivity.
    + unfold fs_nested, fs_nested_other. cbn.
      destruct (Path.eqb ["a"; "b"; "yarn.lock"] ["a"; "b"; x]); reflexivity.
Defined.

(** *** The manifest *)

(** A manifest yields a result only when its path is a file whose content
    parses to an object with a non-empty string under [packageManager], and
    the result is then what the parser makes of that string: a missing or
    unreadable file, invalid JSON, [null], a value that is not an object and a
    field that is not a string all give [null].  The same holds of the
    blocking variant. *)
Theorem manifest_signal_inversion (AGENTS : list string) (fs : FS) (p : path)
    (cb : OnUnknown) (r : DetectResult) :
  result_of fs (parsePackageJson AGENTS p cb) = Some r
  \/ result_of fs (parsePackageJsonSync AGENTS p cb) = Some r ->
  exists fields pm,
    fs p = Some (File (Some (JObject fields)))
    /\ own_property fields "packageManager" = Some (JString pm)
    /\ pm <> ""
    /\ processUserAgent AGENTS pm cb = Some r.
Proof.
  intros H.
  assert (Hres : manifest_result AGENTS fs p cb = Some r).
  { rewrite <- result_of_parsePackageJson. destruct H as [H | H]; [exact H|].
    rewrite <- H. apply agree_parsePackageJson. }
  clear H. unfold manifest_result, packageManager_at, is_file, fs_stat,
    fs_read_json in Hres.
  destruct (fs p) as [[content|]|]; simpl in Hres; try discriminate.
  destruct content as [pkg|]; [|discriminate].
  destruct pkg as [| b | lit | s | items | fields]; simpl in Hres;
    try discriminate.
  destruct (own_property fields "packageManager") as [[| b | lit | pm | items | fs']|]
    eqn:Eprop; try discriminate.
  exists fields, pm. repeat split; try assumption.
  intros ->. discriminate.
Qed.

Lemma manifest_signal_inversion_witness :
  exists fields pm,
    fs_nested ["a"; "package.json"] = Some (File (Some (JObject fields)))
    /\ own_property fields "packageManager" = Some (JString pm)
    /\ pm <> ""
    /\ processUserAgent AGENTS_sample pm None
       = Some (mkResult "pnpm" "pnpm" (Present "9.0.0")).
Proof.
  apply (@manifest_signal_inversion AGENTS_sample fs_nested ["a"; "package.json"]
           None (mkResult "pnpm" "pnpm" (Present "9.0.0"))).
  left. reflexivity.
Defined.
